(** * KITTILoader: the data-loading transforms of [src/KITTILoader.py]

    A shallow embedding of the geometric encoders ([rotate_pc_along_y],
    [angle2class], [size2class]) and of the two dataset classes
    ([myPointData], [myImageFloder]), with the properties stated about them.

    Python floats are IEEE binary64 numbers.  The encoders that only use
    [+ - * / % int()] are transcribed once, over an interface [PyFloat] of
    float arithmetic, and read at two instances:
    - [exact_float]: the real numbers, that is the arithmetic with no
      rounding, in which the universal properties are proved;
    - [binary64_float]: the kernel's primitive binary64 floats, the arithmetic
      the interpreter runs, in which the code is evaluated on concrete inputs
      and the assertion of [angle2class] is proved for every finite float.
    The code that needs [cos], [sin], [sqrt] and Gaussian draws is transcribed
    over the real numbers. *)

From Stdlib Require Import String Ascii Floats.
From Stdlib Require Import ZArith QArith Reals Lra Lia Psatz List Bool.
Import ListNotations.

Set Implicit Arguments.
#[local] Set Warnings "-inexact-float".

(** ** Exceptions and results

    A Python call either returns a value or raises. *)

Inductive exn : Type :=
| AssertionError
| ZeroDivisionError
| OverflowError
| ValueError
| IndexError
| KeyError
| IOError.

Inductive result (A : Type) : Type :=
| Ok (a : A)
| Raise (e : exn).

Arguments Ok {A} a.
Arguments Raise {A} e.

Definition bind {A B : Type} (m : result A) (k : A -> result B) : result B :=
  match m with
  | Ok a => k a
  | Raise e => Raise e
  end.

Declare Scope py_scope.
Delimit Scope py_scope with py.
Notation "x <- m ;; k" := (bind m (fun x => k))
  (at level 61, m at next level, right associativity) : py_scope.
Notation "' p <- m ;; k" := (bind m (fun x => let p := x in k))
  (at level 61, p pattern, m at next level, right associativity) : py_scope.

Definition lookup_or {A : Type} (e : exn) (o : option A) : result A :=
  match o with
  | Some a => Ok a
  | None => Raise e
  end.


(** ** Float arithmetic

    The operations of Python floats the encoders use.  [frem] is the float
    [%] (the sign of the result is the divisor's), [of_int] is [float(n)]
    (also the promotion of an [int] operand), [to_int] is [int(x)]
    (truncation toward zero), [of_literal] reads a decimal literal and [np_pi]
    is [np.pi]. *)

Class PyFloat (F : Type) : Type := {
  fadd : F -> F -> F;
  fsub : F -> F -> F;
  fmul : F -> F -> F;
  fdiv : F -> F -> F;
  frem : F -> F -> F;
  fle : F -> F -> bool;
  feq : F -> F -> bool;
  of_int : Z -> option F;
  to_int : F -> option Z;
  of_literal : Q -> F;
  np_pi : F
}.

(** *** Exact arithmetic: the real numbers *)

Module Exact.

Open Scope R_scope.

Definition Rleb (x y : R) : bool := if Rle_dec x y then true else false.
Definition Rltb (x y : R) : bool := if Rlt_dec x y then true else false.
Definition Reqb (x y : R) : bool := if Req_dec_T x y then true else false.

(** The largest integer below [x]. *)
Definition floor (x : R) : Z := (up x - 1)%Z.

(** Floored remainder: [x - floor (x / y) * y]. *)
Definition rem (x y : R) : R := x - IZR (floor (x / y)) * y.

(** Truncation toward zero. *)
Definition trunc (x : R) : Z :=
  if Rle_dec 0 x then floor x else (- floor (- x))%Z.

#[global] Instance exact_float : PyFloat R := {
  fadd := Rplus;
  fsub := Rminus;
  fmul := Rmult;
  fdiv := Rdiv;
  frem := rem;
  fle := Rleb;
  feq := Reqb;
  of_int := fun n => Some (IZR n);
  to_int := fun x => Some (trunc x);
  of_literal := Q2R;
  np_pi := PI
}.

End Exact.

(** *** Binary64 arithmetic: the kernel's primitive floats *)

Module Binary64.

Open Scope float_scope.

(** A finite float as [m * 2^e]. *)
Definition to_ZE (x : float) : option (Z * Z) :=
  match Prim2SF x with
  | S754_zero _ => Some (0%Z, 0%Z)
  | S754_finite s m e => Some ((if s then Z.neg m else Z.pos m), e)
  | _ => None
  end.

(** The float nearest to [m * 2^e] (ties to even). *)
Definition of_ZE (m e : Z) : float := SF2Prim (binary_normalize prec emax m e false).

(** C's [fmod]: the exact remainder of the truncated division, with the
    sign of [x]; not a number when [x] is not finite or [y] is zero. *)
Definition fmod (x y : float) : float :=
  match to_ZE x, to_ZE y with
  | Some (mx, ex), Some (my, ey) =>
      if (my =? 0)%Z then nan else
      let e := Z.min ex ey in
      let r := Z.rem (mx * 2 ^ (ex - e)) (my * 2 ^ (ey - e)) in
      if (r =? 0)%Z then (if get_sign x then neg_zero else zero)
      else of_ZE r e
  | None, _ => nan
  | Some _, None => if is_nan y then nan else x
  end.

(** The float [%] of CPython ([float_rem]) and of NumPy ([npy_divmod]):
    [fmod], moved by the divisor when its sign differs from the divisor's. *)
Definition rem (x y : float) : float :=
  let m := fmod x y in
  if m =? 0 then (if get_sign y then neg_zero else zero)
  else if xorb (y <? 0) (m <? 0) then m + y
  else m.

(** [int(x)]: truncation toward zero; raises on an infinity or a nan. *)
Definition trunc (x : float) : option Z :=
  match Prim2SF x with
  | S754_zero _ => Some 0%Z
  | S754_finite s m e =>
      let a := if (0 <=? e)%Z then (Z.pos m * 2 ^ e)%Z else (Z.pos m / 2 ^ (- e))%Z in
      Some (if s then (- a)%Z else a)
  | _ => None
  end.

(** [float(n)]: the nearest float; raises when it overflows. *)
Definition of_Z (n : Z) : option float :=
  let x := of_ZE n 0 in
  if is_infinity x then None else Some x.

(** The float nearest to the rational [p / q]: the quotient is taken with
    more bits than a float holds and a sticky last bit. *)
Definition of_Q (q : Q) : float :=
  let p := Qnum q in
  let d := Z.pos (Qden q) in
  if (p =? 0)%Z then zero else
  let k := Z.max 0 (Z.log2 d - Z.log2 (Z.abs p) + 66) in
  let n := (Z.abs p * 2 ^ k)%Z in
  let m := (2 * (n / d) + (if (n mod d =? 0)%Z then 0 else 1))%Z in
  of_ZE (if (p <? 0)%Z then (- m)%Z else m) (- k - 1).

#[global] Instance binary64_float : PyFloat float := {
  fadd := PrimFloat.add;
  fsub := PrimFloat.sub;
  fmul := PrimFloat.mul;
  fdiv := PrimFloat.div;
  frem := rem;
  fle := PrimFloat.leb;
  feq := PrimFloat.eqb;
  of_int := of_Z;
  to_int := trunc;
  of_literal := of_Q;
  np_pi := 0x1.921fb54442d18p+1
}.

End Binary64.

(** ** Module constants and encoders *)

Section Encoders.

Context {F : Type} `{PyFloat F}.

Local Open Scope py_scope.

(** [__box_mean] *)
Definition box_mean : list F :=
  [ of_literal 3.996132075471698908%Q;
    of_literal 1.617452830188679469%Q;
    of_literal 1.517264150943395506%Q ].

(** [2 * np.pi]: the [int] 2 is promoted to a float. *)
Definition two_pi : F := fmul (of_literal 2%Q) np_pi.

(** [x / y] on Python floats. *)
Definition py_div (x y : F) : result F :=
  if feq y (of_literal 0%Q) then Raise ZeroDivisionError else Ok (fdiv x y).

(** [float(n)] *)
Definition py_float (n : Z) : result F := lookup_or OverflowError (of_int n).

(** [int(x)] *)
Definition py_int (x : F) : result Z := lookup_or ValueError (to_int x).

(** [angle2class(angle, num_class)] *)
Definition angle2class (angle : F) (num_class : Z) : result (Z * F) :=
  let angle := frem angle two_pi in
  if negb (fle (of_literal 0%Q) angle && fle angle two_pi) then Raise AssertionError else
  n <- py_float num_class ;;
  angle_per_class <- py_div two_pi n ;;
  let half := fdiv angle_per_class (of_literal 2%Q) in
  let shifted_angle := frem (fadd angle half) two_pi in
  q <- py_div shifted_angle angle_per_class ;;
  class_id <- py_int q ;;
  c <- py_float class_id ;;
  let residual_angle := fsub shifted_angle (fadd (fmul c angle_per_class) half) in
  Ok (class_id, residual_angle).

(** NumPy's elementwise operation on one-dimensional operands: equal
    lengths, or one of them of length one, which is broadcast. *)
Definition np_elementwise (op : F -> F -> F) (a b : list F) : result (list F) :=
  match a, b with
  | [x], _ => Ok (map (fun y => op x y) b)
  | _, [y] => Ok (map (fun x => op x y) a)
  | _, _ =>
      if (length a =? length b)%nat
      then Ok (map (fun p => op (fst p) (snd p)) (combine a b))
      else Raise ValueError
  end.

(** [a - b] and [a + b] *)
Definition np_sub : list F -> list F -> result (list F) := np_elementwise fsub.
Definition np_add : list F -> list F -> result (list F) := np_elementwise fadd.

(** [size2class(size)] *)
Definition size2class (size : list F) : result (list F) :=
  np_sub size box_mean.

End Encoders.

(** ** Arrays

    A two-dimensional NumPy array of shape [(N, C)]: its rows, and [C] (which
    an array with no row still has).  A one-dimensional array is a list. *)

Record ndarray : Type := {
  ncols : nat;
  rows : list (list R)
}.

Definition nrows (a : ndarray) : nat := length (rows a).

(** Every row has [ncols] entries. *)
Definition rectangular (a : ndarray) : Prop :=
  Forall (fun r => length r = ncols a) (rows a).

Section Arrays.

Local Open Scope py_scope.
Local Open Scope R_scope.

(** [l[i] = f (l[i])] on the entries of a row or of a one-dimensional array. *)
Fixpoint upd (i : nat) (f : R -> R) (l : list R) : list R :=
  match l, i with
  | [], _ => []
  | x :: r, O => f x :: r
  | x :: r, S j => x :: upd j f r
  end.

(** [a[i]] for a valid position of a one-dimensional array. *)
Definition at_ (l : list R) (i : nat) : R := nth i l 0.

(** [a[i]], which raises [IndexError] out of range. *)
Definition item (l : list R) (i : nat) : result R :=
  lookup_or IndexError (nth_error l i).

(** [a[i] = f (a[i])] on a one-dimensional array (an in-place [*=] or [+=]). *)
Definition item_update (l : list R) (i : nat) (f : R -> R) : result (list R) :=
  if (i <? length l)%nat then Ok (upd i f l) else Raise IndexError.

(** [a[:, j] = f (a[:, j])] (an in-place [*=] or [+=] on a column). *)
Definition column_update (a : ndarray) (j : nat) (f : R -> R) : result ndarray :=
  if (j <? ncols a)%nat
  then Ok {| ncols := ncols a; rows := map (upd j f) (rows a) |}
  else Raise IndexError.

(** [l[idx]] with an array of indices: a new array, entry by entry. *)
Fixpoint take {A : Type} (l : list A) (idx : list nat) : result (list A) :=
  match idx with
  | [] => Ok []
  | i :: rest =>
      x <- lookup_or IndexError (nth_error l i) ;;
      xs <- take l rest ;;
      Ok (x :: xs)
  end.

(** [a[idx, :]] *)
Definition take_rows (a : ndarray) (idx : list nat) : result ndarray :=
  rs <- take (rows a) idx ;;
  Ok {| ncols := ncols a; rows := rs |}.

(** [np.expand_dims(v, 0)] of a one-dimensional array. *)
Definition expand_dims0 (v : list R) : ndarray :=
  {| ncols := length v; rows := [v] |}.

(** [a.squeeze()] of an array of shape [(1, C)] with [C > 1]. *)
Definition squeeze (a : ndarray) : list R :=
  match rows a with
  | [r] => r
  | _ => concat (rows a)
  end.

(** [np.clip(x, lo, hi)]: [minimum(maximum(x, lo), hi)]. *)
Definition np_clip (x lo hi : R) : R := Rmin (Rmax x lo) hi.

End Arrays.

(** ** [rotate_pc_along_y] *)

Section Rotation.

Local Open Scope R_scope.

(** One row of [np.dot(pc[:, [0, 2]], np.transpose(rotmat))] written back
    into columns 0 and 2, with
    [rotmat = [[cosval, -sinval], [sinval, cosval]]]. *)
Definition rotate_row (cosval sinval : R) (p : list R) : list R :=
  let x := at_ p 0 in
  let z := at_ p 2 in
  upd 0 (fun _ => x * cosval + z * - sinval)
    (upd 2 (fun _ => x * sinval + z * cosval) p).

(** [rotate_pc_along_y(pc, rot_angle)] *)
Definition rotate_pc_along_y (pc : ndarray) (rot_angle : R) : result ndarray :=
  let cosval := cos rot_angle in
  let sinval := sin rot_angle in
  if (2 <? ncols pc)%nat
  then Ok {| ncols := ncols pc; rows := map (rotate_row cosval sinval) (rows pc) |}
  else Raise IndexError.

End Rotation.

(** ** [myPointData] *)

(** The record [point_loader] reads: a dict whose keys may be missing. *)
Record Datas : Type := {
  img_id : option Z;
  frustum_angle : option R;
  point_velo : option ndarray;
  velo_label : option (list Z);
  point_2d : option ndarray;
  label : option (list Z);
  box3d_center : option (list R);
  box3d_size : option (list R);
  heading : option R
}.

(** What the dataset reads from outside: the stored records by path, and the
    outcomes of the random draws of one [__getitem__] call. *)
Record PointWorld : Type := {
  stored : string -> option Datas;
  (** the raw integer behind the [i]-th index of [np.random.choice] *)
  choice_raw : nat -> nat;
  (** [np.random.random()], in [[0, 1)] *)
  random_draw : R;
  (** [np.random.randn()] *)
  randn_draw : R
}.

Record myPointData : Type := {
  points : list string;
  num_point : Z;
  num_angle : Z;
  random_flip : bool;
  random_shift : bool;
  lidar : bool
}.

(** What [myPointData.__getitem__] returns. *)
Record PointItem : Type := {
  points_rot : ndarray;
  seg_mask : list Z;
  box3d_center_rot : list R;
  angle_c_rot : Z;
  angle_r_rot : R;
  size_r : list R;
  rot_angle : R;
  item_img_id : Z;
  item_name : string
}.

Section PointData.

Local Open Scope py_scope.
Local Open Scope R_scope.

(** [myPointData.__init__], on the listing [os.listdir(points_dir)]. *)
Definition myPointData_init (points_dir : string) (listing : list string)
    (num_point num_angle : Z) (random_flip random_shift lidar : bool) : myPointData :=
  {| points := map (fun point => (points_dir ++ point)%string) listing;
     num_point := num_point;
     num_angle := num_angle;
     random_flip := random_flip;
     random_shift := random_shift;
     lidar := lidar |}.

(** [l[index]] on a Python list: a negative index counts from the end. *)
Definition list_getitem {A : Type} (l : list A) (index : Z) : result A :=
  let n := Z.of_nat (length l) in
  if (0 <=? index)%Z then lookup_or IndexError (nth_error l (Z.to_nat index))
  else if (- n <=? index)%Z then lookup_or IndexError (nth_error l (Z.to_nat (n + index)))
  else Raise IndexError.

(** [s.split('/')[-1]] *)
Fixpoint last_part (cur s : string) : string :=
  match s with
  | EmptyString => cur
  | String c r =>
      if Ascii.eqb c "/" then last_part EmptyString r
      else last_part (cur ++ String c EmptyString) r
  end.

(** [point_loader(path)] *)
Definition point_loader (w : PointWorld) (path : string) : result Datas :=
  lookup_or IOError (stored w path).

(** [datas[key]] *)
Definition key {A : Type} (field : option A) : result A := lookup_or KeyError field.

(** [np.random.choice(n, k, replace=True)]: [k] indices below [n]. *)
Definition np_random_choice (w : PointWorld) (n : nat) (k : Z) : result (list nat) :=
  if (k <? 0)%Z then Raise ValueError
  else if (n =? 0)%nat && negb (k =? 0)%Z then Raise ValueError
  else Ok (map (fun i => choice_raw w i mod n)%nat (seq 0 (Z.to_nat k))).

(** The body of the flip branch (lines 150-152). *)
Definition flip (pts : ndarray) (center : list R) (head : R)
    : result (ndarray * list R * R) :=
  pts <- column_update pts 0 (fun x => x * -1) ;;
  center <- item_update center 0 (fun x => x * -1) ;;
  let head := PI - head in
  Ok (pts, center, head).

(** The body of the shift branch (lines 155-158). *)
Definition shift (w : PointWorld) (pts : ndarray) (center : list R)
    : result (ndarray * list R) :=
  c0 <- item center 0 ;;
  c1 <- item center 1 ;;
  let dist := sqrt (c0 ^ 2 + c1 ^ 2) in
  let shift := np_clip (randn_draw w * dist * 0.05) (dist * 0.8) (dist * 1.2) in
  pts <- column_update pts 2 (fun z => z + shift) ;;
  center <- item_update center 2 (fun z => z + shift) ;;
  Ok (pts, center).

(** The flip stage (lines 146-152). *)
Definition flip_stage (self : myPointData) (w : PointWorld)
    (pts : ndarray) (center : list R) (head : R) : result (ndarray * list R * R) :=
  if random_flip self
  then if Exact.Rltb 0.5 (random_draw w)
       then flip pts center head
       else Ok (pts, center, head)
  else Ok (pts, center, head).

(** The shift stage (lines 154-158). *)
Definition shift_stage (self : myPointData) (w : PointWorld)
    (pts : ndarray) (center : list R) : result (ndarray * list R) :=
  if random_shift self then shift w pts center else Ok (pts, center).

(** The data augmentation (lines 146-158): the points, the box center and
    the heading as they enter the rotation. *)
Definition augment (self : myPointData) (w : PointWorld)
    (pts : ndarray) (center : list R) (head : R) : result (ndarray * list R * R) :=
  '(pts, center, head) <- flip_stage self w pts center head ;;
  '(pts, center) <- shift_stage self w pts center ;;
  Ok (pts, center, head).

(** [myPointData.__getitem__(index)] *)
Definition myPointData_getitem (self : myPointData) (w : PointWorld) (index : Z)
    : result PointItem :=
  point <- list_getitem (points self) index ;;
  datas <- point_loader w point ;;
  img_id <- key (img_id datas) ;;
  frustum <- key (frustum_angle datas) ;;
  let rot_angle := PI / 2 + frustum in
  '(pts, seg_mask) <-
    (if lidar self
     then p <- key (point_velo datas) ;; m <- key (velo_label datas) ;; Ok (p, m)
     else p <- key (point_2d datas) ;; m <- key (label datas) ;; Ok (p, m)) ;;
  choice <- np_random_choice w (nrows pts) (num_point self) ;;
  pts <- take_rows pts choice ;;
  seg_mask <- take seg_mask choice ;;
  box3d_center <- key (box3d_center datas) ;;
  head <- key (heading datas) ;;
  '(pts, box3d_center, head) <- augment self w pts box3d_center head ;;
  size <- key (box3d_size datas) ;;
  size_r <- size2class size ;;
  points_rot <- rotate_pc_along_y pts rot_angle ;;
  center_rot <- rotate_pc_along_y (expand_dims0 box3d_center) rot_angle ;;
  let box3d_center_rot := squeeze center_rot in
  '(angle_c_rot, angle_r_rot) <- angle2class (head - rot_angle) (num_angle self) ;;
  Ok {| points_rot := points_rot;
        seg_mask := seg_mask;
        box3d_center_rot := box3d_center_rot;
        angle_c_rot := angle_c_rot;
        angle_r_rot := angle_r_rot;
        size_r := size_r;
        rot_angle := rot_angle;
        item_img_id := img_id;
        item_name := last_part EmptyString point |}.

(** [myPointData.__len__()] *)
Definition myPointData_len (self : myPointData) : nat := length (points self).

End PointData.

(** ** Images and tensors *)

(** A PIL image: its size [(width, height)] and its pixels. *)
Record Image (P : Type) : Type := {
  width : Z;
  height : Z;
  pixel : Z -> Z -> P
}.

(** An RGB pixel and a single-channel (disparity) pixel. *)
Definition RGB : Type := (Z * Z * Z)%type.

(** A tensor of shape [(C, H, W)]: channels of rows. *)
Definition Tensor : Type := list (list (list R)).

Definition has_shape (t : Tensor) (c h w : nat) : Prop :=
  length t = c /\
  Forall (fun ch => length ch = h /\ Forall (fun row => length row = w) ch) t.

(** The shape [(H, W)] of a two-dimensional array. *)
Definition array_shape (a : ndarray) (h w : nat) : Prop :=
  nrows a = h /\ ncols a = w /\ rectangular a.

(** The disparity [__getitem__] returns: an array, or the integer [0]. *)
Inductive Disparity : Type :=
| DispArray (a : ndarray)
| DispZero.

(** What [myImageFloder.__getitem__] returns: four values when training, six
    otherwise. *)
Inductive StereoItem : Type :=
| TrainItem (left_img right_img : Tensor) (dataL : Disparity) (name : string)
| EvalItem (left_img right_img : Tensor) (dataL : Disparity) (name : string) (w h : Z).

(** What the dataset reads from outside: the image files by path and the raw
    integers behind the two [random.randint] calls. *)
Record StereoWorld : Type := {
  rgb_files : string -> option (Image RGB);
  disparity_files : string -> option (Image Z);
  randint_raw_x : Z;
  randint_raw_y : Z
}.

Record myImageFloder : Type := {
  left : list string;
  right : list string;
  disp_L : list string;
  loader : string -> result (Image RGB);
  dploader : string -> result (Image Z);
  training : bool;
  name : list string;
  load : bool
}.

Section Stereo.

Local Open Scope py_scope.
Local Open Scope R_scope.

(** [__imagenet_stats] *)
Definition imagenet_mean : list R := [0.485; 0.456; 0.406].
Definition imagenet_std : list R := [0.229; 0.224; 0.225].

(** [default_loader(path)]: the file decoded as RGB. *)
Definition default_loader (w : StereoWorld) (path : string) : result (Image RGB) :=
  lookup_or IOError (rgb_files w path).

(** [disparity_loader(path)] *)
Definition disparity_loader (w : StereoWorld) (path : string) : result (Image Z) :=
  lookup_or IOError (disparity_files w path).

(** The region [(l, u, r, b)] of an image: an image of size
    [(r - l, b - u)]; what lies outside the source image is filled with
    [fill]. *)
Definition crop_region {P : Type} (fill : P) (img : Image P) (box : Z * Z * Z * Z)
    : Image P :=
  let '(l, u, r, b) := box in
  {| width := r - l;
     height := b - u;
     pixel := fun x y =>
       let sx := (x + l)%Z in
       let sy := (y + u)%Z in
       if ((0 <=? sx) && (sx <? width img) && (0 <=? sy) && (sy <? height img))%Z
       then pixel img sx sy else fill |}.

(** [img.crop((l, u, r, b))] *)
Definition crop {P : Type} (fill : P) (img : Image P) (box : Z * Z * Z * Z)
    : result (Image P) :=
  let '(l, u, r, b) := box in
  if (r <? l)%Z || (b <? u)%Z then Raise ValueError
  else Ok (crop_region fill img box).

(** The positions [0 .. n-1], as integers. *)
Definition zrange (n : Z) : list Z := map Z.of_nat (seq 0 (Z.to_nat n)).

(** [np.ascontiguousarray(img, dtype=np.float32)]: an array of shape
    [(height, width)]. *)
Definition ascontiguousarray (img : Image Z) : ndarray :=
  {| ncols := Z.to_nat (width img);
     rows := map (fun y => map (fun x => IZR (pixel img x y)) (zrange (width img)))
                 (zrange (height img)) |}.

(** [a / 256] *)
Definition array_div (a : ndarray) (d : R) : ndarray :=
  {| ncols := ncols a; rows := map (map (fun v => v / d)) (rows a) |}.

(** [l[i:j]] with Python's treatment of negative and oversized bounds. *)
Definition slice_bound (n i : Z) : Z :=
  if (i <? 0)%Z then Z.max 0 (n + i) else Z.min n i.

Definition py_slice {A : Type} (l : list A) (i j : Z) : list A :=
  let n := Z.of_nat (length l) in
  let a := slice_bound n i in
  let b := slice_bound n j in
  firstn (Z.to_nat (b - a)) (skipn (Z.to_nat a) l).

(** [a[i0:i1, j0:j1]] *)
Definition array_slice (a : ndarray) (i0 i1 j0 j1 : Z) : ndarray :=
  let n := Z.of_nat (ncols a) in
  {| ncols := Z.to_nat (slice_bound n j1 - slice_bound n j0);
     rows := map (fun r => py_slice r j0 j1) (py_slice (rows a) i0 i1) |}.

(** [transforms.ToTensor()]: channels of rows of values scaled to [[0, 1]]. *)
Definition channel (c : nat) (p : RGB) : Z :=
  let '(r, g, b) := p in
  match c with O => r | S O => g | _ => b end.

Definition to_tensor (img : Image RGB) : Tensor :=
  map (fun c =>
         map (fun y => map (fun x => IZR (channel c (pixel img x y)) / 255)
                           (zrange (width img)))
             (zrange (height img)))
      (seq 0 3).

(** [transforms.Normalize(mean, std)]: channel by channel. *)
Definition normalize (mean std : list R) (t : Tensor) : Tensor :=
  map (fun cms : list (list R) * (R * R) =>
         let '(ch, (m, s)) := cms in
         map (map (fun v => (v - m) / s)) ch)
      (combine t (combine mean std)).

(** [scale_crop] returns the composition of the two transforms. *)
Definition scale_crop (normalize_stats : list R * list R) (img : Image RGB) : Tensor :=
  normalize (fst normalize_stats) (snd normalize_stats) (to_tensor img).

(** [get_transform()] *)
Definition get_transform : Image RGB -> Tensor :=
  scale_crop (imagenet_mean, imagenet_std).

(** [random.randint(a, b)] *)
Definition randint (raw a b : Z) : result Z :=
  if (b <? a)%Z then Raise ValueError else Ok (a + raw mod (b - a + 1))%Z.

(** The loading part of [__getitem__] (lines 196-206): the two images,
    the disparity image unless [self.load], and the name. *)
Definition stereo_load (self : myImageFloder) (index : Z)
    : result (Image RGB * Image RGB * option (Image Z) * string) :=
  left_path <- list_getitem (left self) index ;;
  right_path <- list_getitem (right self) index ;;
  name <- list_getitem (name self) index ;;
  left_img <- loader self left_path ;;
  right_img <- loader self right_path ;;
  dataL <- (if negb (load self)
            then disp_path <- list_getitem (disp_L self) index ;;
                 d <- dploader self disp_path ;;
                 Ok (Some d)
            else Ok None) ;;
  Ok (left_img, right_img, dataL, name).

(** [myImageFloder.__getitem__(index)] *)
Definition myImageFloder_getitem (self : myImageFloder) (wd : StereoWorld) (index : Z)
    : result StereoItem :=
  '(left_img, right_img, dataL, name) <- stereo_load self index ;;
  if training self then
    let w := width left_img in
    let h := height left_img in
    let th := 256%Z in
    let tw := 512%Z in
    x1 <- randint (randint_raw_x wd) 0 (w - tw) ;;
    y1 <- randint (randint_raw_y wd) 0 (h - th) ;;
    left_img <- crop (0, 0, 0)%Z left_img (x1, y1, x1 + tw, y1 + th)%Z ;;
    right_img <- crop (0, 0, 0)%Z right_img (x1, y1, x1 + tw, y1 + th)%Z ;;
    let dataL :=
      match dataL with
      | Some d =>
          DispArray (array_slice (array_div (ascontiguousarray d) 256)
                                 y1 (y1 + th) x1 (x1 + tw))
      | None => DispZero
      end in
    let processed := get_transform in
    let left_img := processed left_img in
    let right_img := processed right_img in
    Ok (TrainItem left_img right_img dataL name)
  else
    let w := width left_img in
    let h := height left_img in
    left_img <- crop (0, 0, 0)%Z left_img (w - 1232, h - 368, w, h)%Z ;;
    right_img <- crop (0, 0, 0)%Z right_img (w - 1232, h - 368, w, h)%Z ;;
    let w1 := width left_img in
    let h1 := height left_img in
    dataL <-
      match dataL with
      | Some d =>
          d <- crop 0%Z d (w - 1232, h - 368, w, h)%Z ;;
          Ok (DispArray (array_div (ascontiguousarray d) 256))
      | None => Ok DispZero
      end ;;
    let processed := get_transform in
    let left_img := processed left_img in
    let right_img := processed right_img in
    Ok (EvalItem left_img right_img dataL name w h).

(** [myImageFloder.__len__()] *)
Definition myImageFloder_len (self : myImageFloder) : nat := length (left self).

End Stereo.

(** ** File names *)

Section FileNames.

Local Open Scope string_scope.

(** [IMG_EXTENSIONS] *)
Definition IMG_EXTENSIONS : list string :=
  [".jpg"; ".JPG"; ".jpeg"; ".JPEG"; ".png"; ".PNG"; ".ppm"; ".PPM"; ".bmp"; ".BMP"].

(** [s.endswith(suffix)]: [s] itself or one of its tails is [suffix]. *)
Fixpoint endswith (s suffix : string) : bool :=
  if String.eqb s suffix then true
  else match s with
       | EmptyString => false
       | String _ rest => endswith rest suffix
       end.

(** [is_image_file(filename)] *)
Definition is_image_file (filename : string) : bool :=
  existsb (fun extension => endswith filename extension) IMG_EXTENSIONS.

End FileNames.

(** ** Vocabulary of the statements *)

Section Vocabulary.

Local Open Scope R_scope.

(** The bin width [2 * pi / N] and the shifted angle of [angle2class], in
    exact arithmetic. *)
Definition bin_width (N : Z) : R := 2 * PI / IZR N.

Definition shifted (a : R) (N : Z) : R :=
  Exact.rem (Exact.rem a (2 * PI) + bin_width N / 2) (2 * PI).

(** The value the shift branch adds, from the box center and the Gaussian
    draw. *)
Definition planar_dist (center : list R) : R :=
  sqrt (at_ center 0 ^ 2 + at_ center 1 ^ 2).

Definition shift_value (w : PointWorld) (center : list R) : R :=
  np_clip (randn_draw w * planar_dist center * 0.05)
          (planar_dist center * 0.8) (planar_dist center * 1.2).

(** The point cloud and the labels [__getitem__] selects from a record. *)
Definition cloud (self : myPointData) (d : Datas) : option ndarray :=
  if lidar self then point_velo d else point_2d d.

Definition cloud_labels (self : myPointData) (d : Datas) : option (list Z) :=
  if lidar self then velo_label d else label d.



(** The components of a stereo item. *)
Definition item_left (it : StereoItem) : Tensor :=
  match it with
  | TrainItem l _ _ _ => l
  | EvalItem l _ _ _ _ _ => l
  end.

Definition item_right (it : StereoItem) : Tensor :=
  match it with
  | TrainItem _ r _ _ => r
  | EvalItem _ r _ _ _ _ => r
  end.

Definition item_disparity (it : StereoItem) : Disparity :=
  match it with
  | TrainItem _ _ d _ => d
  | EvalItem _ _ d _ _ _ => d
  end.

(** The two trailing integers of an evaluation item. *)
Definition item_size (it : StereoItem) : option (Z * Z) :=
  match it with
  | TrainItem _ _ _ _ => None
  | EvalItem _ _ _ _ w h => Some (w, h)
  end.

(** A stereo item whose images, and whose disparity map when one was
    loaded, have [h] rows and [w] columns. *)
Definition sized (it : StereoItem) (dataL : option (Image Z)) (h w : nat) : Prop :=
  has_shape (item_left it) 3 h w /\
  has_shape (item_right it) 3 h w /\
  match item_disparity it, dataL with
  | DispArray a, Some _ => array_shape a h w
  | DispZero, None => True
  | _, _ => False
  end.

End Vocabulary.

(** ** Sample data *)

Module Sample.

Local Open Scope R_scope.
Local Open Scope string_scope.

(** A cloud of two points with four channels, and a cloud with no point. *)
Definition two_points : ndarray :=
  {| ncols := 4; rows := [[1; 2; 3; 0.5]; [-1; 0; 2; 0.25]] |}.


Definition record (pts : ndarray) (labels : list Z) : Datas :=
  {| img_id := Some 7%Z;
     frustum_angle := Some 0;
     point_velo := None;
     velo_label := None;
     point_2d := Some pts;
     label := Some labels;
     box3d_center := Some [1; 1.5; 10];
     box3d_size := Some [3.5; 1.6; 1.5];
     heading := Some 0 |}.

Definition world (d : Datas) : PointWorld :=
  {| stored := fun path => if String.eqb path "frustum/000007.npy" then Some d else None;
     choice_raw := fun i => i;
     random_draw := 0.75;
     randn_draw := 0 |}.

(** Three points asked of each record, twelve heading classes, both
    augmentations on, camera frame. *)
Definition dataset : myPointData :=
  myPointData_init "frustum/" ["000007.npy"] 3 12 true true false.

(** A stereo pair of the usual KITTI size with its disparity image. *)
Definition image (w h : Z) : Image RGB :=
  {| width := w; height := h; pixel := fun _ _ => (128, 64, 32)%Z |}.

Definition disparity (w h : Z) : Image Z :=
  {| width := w; height := h; pixel := fun _ _ => 2560%Z |}.

Definition stereo_world : StereoWorld :=
  {| rgb_files := fun path =>
       if String.eqb path "image_2/000007.png" then Some (image 1242 375)
       else if String.eqb path "image_3/000007.png" then Some (image 1242 375)
       else None;
     disparity_files := fun path =>
       if String.eqb path "disp_occ_0/000007.png" then Some (disparity 1242 375)
       else None;
     randint_raw_x := 1000;
     randint_raw_y := 77 |}.

Definition stereo (training : bool) : myImageFloder :=
  {| left := ["image_2/000007.png"];
     right := ["image_3/000007.png"];
     disp_L := ["disp_occ_0/000007.png"];
     loader := default_loader stereo_world;
     dploader := disparity_loader stereo_world;
     training := training;
     name := ["000007.png"];
     load := false |}.

End Sample.

(** ** Entries of arrays and tensors *)

(** [a[r, c]] and [t[c, y, x]] at valid positions. *)
Definition array_entry (a : ndarray) (r c : nat) : R :=
  nth c (nth r (rows a) []) 0%R.

Definition tensor_entry (t : Tensor) (c y x : nat) : R :=
  nth x (nth y (nth c t []) []) 0%R.

(** ** File names without a directory part *)


(** ** Binary64 mantissas *)

(** The number of binary digits of a mantissa. *)
Definition digits (p : positive) : Z := Z.pos (digits2_pos p).

(** * Properties *)

Unset Implicit Arguments.

(** ** Exact arithmetic *)

Section ExactFacts.

Local Open Scope R_scope.

Lemma floor_spec (x : R) : IZR (Exact.floor x) <= x < IZR (Exact.floor x) + 1.
Proof.
  unfold Exact.floor. rewrite minus_IZR.
  destruct (archimed x) as [Hup Hlow]. lra.
Qed.

Lemma floor_unique (x : R) (k : Z) : IZR k <= x < IZR k + 1 -> Exact.floor x = k.
Proof.
  intros [Hlo Hhi]. destruct (floor_spec x) as [Flo Fhi].
  assert (H1 : (Exact.floor x < k + 1)%Z).
  { apply lt_IZR. rewrite plus_IZR. lra. }
  assert (H2 : (k < Exact.floor x + 1)%Z).
  { apply lt_IZR. rewrite plus_IZR. lra. }
  lia.
Qed.

Lemma floor_nonneg (x : R) : 0 <= x -> (0 <= Exact.floor x)%Z.
Proof.
  intros Hx. destruct (floor_spec x) as [_ Fhi].
  assert (H : (-1 < Exact.floor x)%Z) by (apply lt_IZR; lra).
  lia.
Qed.

Lemma trunc_nonneg (x : R) : 0 <= x -> Exact.trunc x = Exact.floor x.
Proof.
  intros Hx. unfold Exact.trunc. destruct (Rle_dec 0 x); [reflexivity | contradiction].
Qed.

(** The floored remainder by a positive modulus lies in [[0, y)] and differs
    from [x] by a multiple of [y]. *)
Lemma rem_bounds (x y : R) : 0 < y -> 0 <= Exact.rem x y < y.
Proof.
  intros Hy. unfold Exact.rem.
  destruct (floor_spec (x / y)) as [Flo Fhi].
  assert (Hx : x = x / y * y) by (field; lra).
  split.
  - apply Rmult_le_compat_r with (r := y) in Flo; lra.
  - apply Rmult_lt_compat_r with (r := y) in Fhi; lra.
Qed.

Lemma rem_small (x y : R) : 0 <= x < y -> Exact.rem x y = x.
Proof.
  intros [Hlo Hhi]. unfold Exact.rem.
  rewrite (floor_unique (x / y) 0).
  - lra.
  - assert (Hy : 0 < y) by lra. split.
    + apply Rmult_le_reg_r with (r := y); [assumption |].
      replace (x / y * y) with x by (field; lra). lra.
    + apply Rmult_lt_reg_r with (r := y); [assumption |].
      replace (x / y * y) with x by (field; lra). lra.
Qed.

Lemma Rleb_true (x y : R) : x <= y -> Exact.Rleb x y = true.
Proof. intros Hxy. unfold Exact.Rleb. destruct (Rle_dec x y); [reflexivity | contradiction]. Qed.

Lemma Rltb_true (x y : R) : x < y -> Exact.Rltb x y = true.
Proof. intros Hxy. unfold Exact.Rltb. destruct (Rlt_dec x y); [reflexivity | contradiction]. Qed.

Lemma Rltb_false (x y : R) : y <= x -> Exact.Rltb x y = false.
Proof. intros Hxy. unfold Exact.Rltb. destruct (Rlt_dec x y); [lra | reflexivity]. Qed.

Lemma Reqb_false (x y : R) : x <> y -> Exact.Reqb x y = false.
Proof. intros Hxy. unfold Exact.Reqb. destruct (Req_dec_T x y); [contradiction | reflexivity]. Qed.

Lemma literal_0 : Q2R 0 = 0.
Proof. unfold Q2R. simpl. lra. Qed.

Lemma literal_2 : Q2R 2 = 2.
Proof. unfold Q2R. simpl. lra. Qed.

Lemma two_pi_exact : two_pi (F := R) = 2 * PI.
Proof. unfold two_pi. simpl. rewrite literal_2. reflexivity. Qed.

Lemma two_pi_pos : 0 < 2 * PI.
Proof. pose proof PI_RGT_0. lra. Qed.

Lemma bin_width_pos (N : Z) : (1 <= N)%Z -> 0 < bin_width N.
Proof.
  intros HN. unfold bin_width.
  assert (0 < IZR N) by (apply IZR_lt; lia).
  apply Rdiv_lt_0_compat; [apply two_pi_pos | assumption].
Qed.

Lemma bin_width_total (N : Z) : (1 <= N)%Z -> IZR N * bin_width N = 2 * PI.
Proof.
  intros HN. unfold bin_width.
  assert (0 < IZR N) by (apply IZR_lt; lia).
  field. lra.
Qed.

(** In exact arithmetic [angle2class] returns for every angle and every
    positive class count, with the class and the residual below. *)
Lemma angle2class_exact (a : R) (N : Z) :
  (1 <= N)%Z ->
  angle2class a N
  = Ok (Exact.floor (shifted a N / bin_width N),
        shifted a N
        - (IZR (Exact.floor (shifted a N / bin_width N)) * bin_width N + bin_width N / 2)).
Proof.
  intros HN.
  pose proof two_pi_pos as Hpi.
  pose proof (bin_width_pos N HN) as Hw.
  assert (HNr : 0 < IZR N) by (apply IZR_lt; lia).
  unfold angle2class. rewrite two_pi_exact. cbn [fle frem fadd fsub fmul fdiv of_literal Exact.exact_float].
  rewrite literal_0, literal_2.
  destruct (rem_bounds a _ Hpi) as [Hlo Hhi].
  rewrite (Rleb_true _ _ Hlo), (Rleb_true _ _ (Rlt_le _ _ Hhi)). cbn [andb negb].
  unfold py_float, py_div, py_int. cbn [of_int to_int feq fdiv of_literal Exact.exact_float lookup_or bind].
  rewrite literal_0.
  rewrite (Reqb_false (IZR N) 0) by lra.
  cbn [bind]. fold (bin_width N).
  rewrite (Reqb_false (bin_width N) 0) by lra.
  cbn [bind]. fold (shifted a N).
  destruct (rem_bounds (Exact.rem a (2 * PI) + bin_width N / 2) _ Hpi) as [Slo Shi].
  fold (shifted a N) in Slo, Shi.
  rewrite trunc_nonneg.
  - reflexivity.
  - apply Rmult_le_reg_r with (r := bin_width N); [assumption |].
    replace (shifted a N / bin_width N * bin_width N) with (shifted a N) by (field; lra).
    lra.
Qed.

End ExactFacts.

(** ** Binary64 arithmetic

    The binary64 instance computes what the interpreter computes. *)

Section Binary64Facts.

Local Open Scope float_scope.

(** The literals of [__box_mean] are read as the nearest floats. *)
Example binary64_box_mean :
  box_mean
  = [3.996132075471698908e+00; 1.617452830188679469e+00; 1.517264150943395506e+00].
Proof. vm_compute. reflexivity. Qed.

Example binary64_two_pi : two_pi = 6.283185307179586.
Proof. vm_compute. reflexivity. Qed.

(** [-1 % (2 * np.pi)] and [angle2class(-1, 12)]. *)
Example binary64_angle2class_minus_one :
  frem (-1) two_pi = 5.283185307179586 /\
  angle2class (-1) 12 = Ok (10%Z, 0x1.82a4705ae6d00p-5).
Proof. vm_compute. split; reflexivity. Qed.

(** A tiny negative angle wraps to [2 * np.pi] itself: the assertion of
    [angle2class] holds there by its closed upper bound. *)
Example binary64_wrap_reaches_two_pi :
  frem (-1e-20) two_pi = two_pi /\
  exists residual : float, angle2class (-1e-20) 12 = Ok (0%Z, residual).
Proof. split; [vm_compute; reflexivity | eexists; vm_compute; reflexivity]. Qed.

End Binary64Facts.

(** ** Rounding in binary64

    What [binary_normalize], the rounding of the kernel's float
    specification, does to a mantissa: nothing when it has at most 53
    digits, and otherwise a cut to 53 digits that moves it by less than one
    unit in the last place. *)

Section Binary64Rounding.

Local Open Scope Z_scope.

(** The digits of a mantissa are its binary logarithm plus one. *)
Lemma digits2_pos_size (p : positive) : digits2_pos p = Pos.size p.
Proof. induction p; simpl; congruence. Qed.

Lemma digits_log2 (p : positive) : digits p = Z.log2 (Z.pos p) + 1.
Proof.
  unfold digits. rewrite digits2_pos_size.
  destruct p; simpl; lia.
Qed.

Lemma digits_bounds (p : positive) : 2 ^ (digits p - 1) <= Z.pos p < 2 ^ digits p.
Proof.
  rewrite digits_log2.
  replace (Z.log2 (Z.pos p) + 1 - 1) with (Z.log2 (Z.pos p)) by lia.
  apply (Z.log2_spec (Z.pos p)). lia.
Qed.

Lemma digits_pos (p : positive) : 1 <= digits p.
Proof. unfold digits. lia. Qed.

Lemma digits_unique (p : positive) (d : Z) :
  2 ^ (d - 1) <= Z.pos p < 2 ^ d -> digits p = d.
Proof.
  intros Hb. rewrite digits_log2.
  assert (Hd : 0 < d).
  { destruct (Z.lt_ge_cases 0 d) as [Hd | Hd]; [assumption |].
    destruct Hb as [_ Hb].
    assert (H1 : 2 ^ d <= 2 ^ 0) by (apply Z.pow_le_mono_r; lia).
    change (2 ^ 0) with 1 in H1. lia. }
  rewrite (Z.log2_unique (Z.pos p) (d - 1)); [lia | lia |].
  replace (Z.succ (d - 1)) with d by lia. assumption.
Qed.

(** A mantissa below [2^d] has at most [d] digits. *)
Lemma digits_le (p : positive) (d : Z) : Z.pos p < 2 ^ d -> digits p <= d.
Proof.
  intros Hp. destruct (Z.lt_ge_cases d (digits p)) as [Hd | Hd]; [| lia].
  destruct (digits_bounds p) as [Hlo _].
  assert (H1 : 2 ^ d <= 2 ^ (digits p - 1)).
  { destruct (Z.lt_ge_cases d 0) as [Hn | Hn].
    - rewrite (Z.pow_neg_r 2 d Hn). apply Z.pow_nonneg. lia.
    - apply Z.pow_le_mono_r; lia. }
  lia.
Qed.

(** The exponent of the last place of a float with [x] digits above it. *)
Lemma fexp_eq (x : Z) : fexp prec emax x = Z.max (x - 53) (-1074).
Proof. reflexivity. Qed.

(** Aligning a mantissa to a smaller exponent multiplies it by a power of
    two; to a larger one it leaves it alone. *)
Lemma shl_align_le (p : positive) (e e' : Z) :
  e' <= e ->
  exists q, shl_align p e e' = (q, e') /\ Z.pos q = Z.pos p * 2 ^ (e - e').
Proof.
  intros He. unfold shl_align.
  destruct (e' - e) as [| d | d] eqn:Hd; [| lia |].
  - exists p. replace e' with e by lia. rewrite Z.sub_diag. split; [reflexivity | lia].
  - exists (shift_pos d p). split; [reflexivity |].
    rewrite shift_pos_correct, Z.pow_pos_fold.
    replace (e - e') with (Z.pos d) by lia. lia.
Qed.

Lemma shl_align_ge (p : positive) (e e' : Z) :
  e <= e' -> shl_align p e e' = (p, e).
Proof.
  intros He. unfold shl_align.
  destruct (e' - e) as [| d | d] eqn:Hd; [reflexivity | reflexivity | lia].
Qed.

(** Shifting right halves the mantissa. *)
Lemma shr_1_m (mrs : shr_record) :
  0 <= shr_m mrs -> shr_m (shr_1 mrs) = shr_m mrs / 2.
Proof.
  destruct mrs as [m r s]. simpl.
  destruct m as [| [p | p |] | p]; cbn [shr_m]; intros Hm; try lia.
  - reflexivity.
  - apply Z.div_unique with (r := 1); lia.
  - apply Z.div_unique with (r := 0); lia.
  - reflexivity.
Qed.

Lemma iter_shr_1_m (n : positive) (mrs : shr_record) :
  0 <= shr_m mrs ->
  shr_m (SpecFloat.iter_pos shr_1 n mrs) = shr_m mrs / 2 ^ Z.pos n.
Proof.
  revert mrs. induction n as [n IH | n IH |]; intros mrs Hm; simpl SpecFloat.iter_pos.
  - assert (H1 : 0 <= shr_m (shr_1 mrs)).
    { rewrite shr_1_m by assumption. apply Z.div_pos; lia. }
    assert (H2 : 0 <= shr_m (SpecFloat.iter_pos shr_1 n (shr_1 mrs))).
    { rewrite IH by assumption. apply Z.div_pos; [assumption | apply Z.pow_pos_nonneg; lia]. }
    rewrite IH, IH, shr_1_m by assumption.
    rewrite !Z.div_div by (try apply Z.pow_pos_nonneg; lia).
    f_equal. replace (Z.pos n~1) with (1 + Z.pos n + Z.pos n) by lia.
    rewrite !Z.pow_add_r by lia. change (2 ^ 1) with 2. ring.
  - assert (H2 : 0 <= shr_m (SpecFloat.iter_pos shr_1 n mrs)).
    { rewrite IH by assumption. apply Z.div_pos; [assumption | apply Z.pow_pos_nonneg; lia]. }
    rewrite IH, IH by assumption.
    rewrite !Z.div_div by (try apply Z.pow_pos_nonneg; lia).
    f_equal. replace (Z.pos n~0) with (Z.pos n + Z.pos n) by lia.
    rewrite Z.pow_add_r by lia. reflexivity.
  - rewrite shr_1_m by assumption. reflexivity.
Qed.

Lemma round_nearest_even_bounds (m : Z) (l : location) :
  m <= round_nearest_even m l <= m + 1.
Proof.
  unfold round_nearest_even.
  destruct l as [| []]; try destruct (IntDef.Z.even m); lia.
Qed.

Lemma emax_prec : emax - prec = 971.
Proof. reflexivity. Qed.

Lemma pow2_52 : 2 ^ 52 = 4503599627370496.
Proof. reflexivity. Qed.

Lemma pow2_53 : 2 ^ 53 = 9007199254740992.
Proof. reflexivity. Qed.

(** A mantissa already at its exponent is not shifted. *)
Lemma shr_fexp_canonical (q : positive) (e : Z) :
  fexp prec emax (digits q + e) = e ->
  shr_fexp prec emax (Z.pos q) e loc_Exact
  = ({| shr_m := Z.pos q; shr_r := false; shr_s := false |}, e).
Proof.
  intros Hc. unfold shr_fexp. cbn [Zdigits2 shr_record_of_loc]. fold (digits q).
  rewrite Hc, Z.sub_diag. reflexivity.
Qed.

Lemma shr_fexp_shift (p : positive) (g : Z) (n : positive) :
  fexp prec emax (digits p + g) - g = Z.pos n ->
  shr_fexp prec emax (Z.pos p) g loc_Exact
  = (SpecFloat.iter_pos shr_1 n {| shr_m := Z.pos p; shr_r := false; shr_s := false |},
     g + Z.pos n).
Proof.
  intros Hn. unfold shr_fexp. cbn [Zdigits2 shr_record_of_loc]. fold (digits p).
  rewrite Hn. reflexivity.
Qed.

Lemma binary_round_aux_canonical (s : bool) (q : positive) (e : Z) :
  fexp prec emax (digits q + e) = e ->
  binary_round_aux prec emax s (Z.pos q) e loc_Exact
  = if e <=? 971 then S754_finite s q e else S754_infinity s.
Proof.
  intros Hc. unfold binary_round_aux.
  rewrite (shr_fexp_canonical q e Hc).
  cbn [shr_m loc_of_shr_record round_nearest_even].
  rewrite (shr_fexp_canonical q e Hc). cbn [shr_m].
  rewrite emax_prec. reflexivity.
Qed.

(** A mantissa of at most 53 digits is normalized without rounding. *)
Lemma binary_round_exact (s : bool) (p : positive) (g : Z) :
  -1074 <= g <= 971 -> digits p <= 53 ->
  exists q e,
    binary_round prec emax s p g = S754_finite s q e /\
    fexp prec emax (digits q + e) = e /\
    e <= g /\ Z.pos q = Z.pos p * 2 ^ (g - e).
Proof.
  intros Hg Hd. unfold binary_round. fold (digits p).
  set (e := fexp prec emax (digits p + g)).
  assert (He : e <= g) by (unfold e; rewrite fexp_eq; lia).
  destruct (shl_align_le p g e He) as [q [Hq Hv]]. rewrite Hq.
  pose proof (digits_pos p) as Hp1.
  assert (Hdq : digits q = digits p + (g - e)).
  { apply digits_unique. rewrite Hv. destruct (digits_bounds p) as [Hlo Hhi].
    replace (digits p + (g - e) - 1) with ((digits p - 1) + (g - e)) by lia.
    rewrite !Z.pow_add_r by lia.
    assert (Hk : 0 < 2 ^ (g - e)) by (apply Z.pow_pos_nonneg; lia).
    split.
    - apply Z.mul_le_mono_nonneg_r; lia.
    - apply Z.mul_lt_mono_pos_r; lia. }
  assert (Hc : fexp prec emax (digits q + e) = e).
  { rewrite Hdq. replace (digits p + (g - e) + e) with (digits p + g) by lia.
    reflexivity. }
  exists q, e. rewrite (binary_round_aux_canonical s q e Hc).
  replace (e <=? 971) with true by (symmetry; apply Z.leb_le; lia).
  auto.
Qed.

(** A longer mantissa is cut to 53 digits and rounded to nearest; rounding
    up from [2^53 - 1] carries into the exponent. *)
Lemma binary_round_inexact (s : bool) (p : positive) (g : Z) :
  -1074 <= g -> 53 < digits p ->
  exists q e,
    binary_round prec emax s p g
    = (if e <=? 971 then S754_finite s q e else S754_infinity s) /\
    fexp prec emax (digits q + e) = e /\
    ((e = g + (digits p - 53) /\
      Z.pos q <= Z.pos p / 2 ^ (digits p - 53) + 1) \/
     (e = g + (digits p - 53) + 1 /\
      Z.pos q = 2 ^ 52 /\ Z.pos p / 2 ^ (digits p - 53) = 2 ^ 53 - 1)).
Proof.
  intros Hg Hd. unfold binary_round. fold (digits p).
  rewrite shl_align_ge by (rewrite fexp_eq; lia).
  unfold binary_round_aux.
  destruct (digits p - 53) as [| n | n] eqn:Hn; [lia | | lia].
  rewrite (shr_fexp_shift p g n) by (rewrite fexp_eq; lia).
  set (r1 := SpecFloat.iter_pos shr_1 n _).
  assert (Hm1 : shr_m r1 = Z.pos p / 2 ^ Z.pos n).
  { unfold r1. rewrite iter_shr_1_m by (cbn [shr_m]; lia). reflexivity. }
  assert (Hpow : 0 < 2 ^ Z.pos n) by (apply Z.pow_pos_nonneg; lia).
  destruct (digits_bounds p) as [Hlo Hhi].
  replace (digits p) with (53 + Z.pos n) in Hlo, Hhi by lia.
  replace (53 + Z.pos n - 1) with (52 + Z.pos n) in Hlo by lia.
  rewrite Z.pow_add_r in Hlo, Hhi by lia.
  assert (Hb1 : 2 ^ 52 <= shr_m r1 < 2 ^ 53).
  { rewrite Hm1. split.
    - apply Z.div_le_lower_bound; lia.
    - apply Z.div_lt_upper_bound; lia. }
  pose proof (round_nearest_even_bounds (shr_m r1) (loc_of_shr_record r1)) as Hr.
  rewrite <- Hm1.
  destruct (round_nearest_even (shr_m r1) (loc_of_shr_record r1))
    as [| q2 | q2] eqn:Hq2; [rewrite pow2_52 in Hb1; lia | | rewrite pow2_52 in Hb1; lia].
  destruct (Z.lt_ge_cases (Z.pos q2) (2 ^ 53)) as [Hlt | Hge].
  - assert (Hdq : digits q2 = 53).
    { apply digits_unique. change (53 - 1) with 52. lia. }
    assert (Hc : fexp prec emax (digits q2 + (g + Z.pos n)) = g + Z.pos n).
    { rewrite Hdq, fexp_eq. lia. }
    rewrite (shr_fexp_canonical q2 (g + Z.pos n) Hc). cbn [shr_m].
    exists q2, (g + Z.pos n). rewrite emax_prec.
    split; [reflexivity |]. split; [assumption |]. left. split; lia.
  - assert (Hq53 : Z.pos q2 = 9007199254740992) by (rewrite pow2_53 in *; lia).
    injection Hq53 as ->.
    unfold shr_fexp. cbn [Zdigits2 shr_record_of_loc].
    change (Z.pos (digits2_pos 9007199254740992)) with 54.
    replace (fexp prec emax (54 + (g + Z.pos n)) - (g + Z.pos n)) with 1
      by (rewrite fexp_eq; lia).
    cbn [shr SpecFloat.iter_pos shr_1 shr_m orb].
    exists 4503599627370496%positive, (g + Z.pos n + 1). rewrite emax_prec.
    split; [reflexivity |]. split.
    + change (digits 4503599627370496) with 53. rewrite fexp_eq. lia.
    + right. rewrite pow2_52, pow2_53 in *. split; [reflexivity |]. split; [reflexivity | lia].
Qed.

End Binary64Rounding.

(** ** The float [%] by a positive normal float *)

Section Binary64Wrap.

Local Open Scope Z_scope.

Lemma SFleb_finite (m1 m2 : positive) (e1 e2 : Z) :
  e1 < e2 \/ (e1 = e2 /\ Z.pos m1 <= Z.pos m2) ->
  SFleb (S754_finite false m1 e1) (S754_finite false m2 e2) = true.
Proof.
  intros [Hlt | [-> Hle]]; unfold SFleb, SFcompare.
  - rewrite (proj2 (Z.compare_lt_iff e1 e2) Hlt). reflexivity.
  - rewrite Z.compare_refl.
    change (PosDef.Pos.compare_cont Eq m1 m2) with (Pos.compare m1 m2).
    destruct (Pos.compare_spec m1 m2); try reflexivity. lia.
Qed.

(** Rounding [p * 2^g], which is below the normal float [my * 2^E], gives
    a float that is at most [my * 2^E]; with at most 53 digits it gives
    [p * 2^g] itself. *)
Lemma binary_round_below (s : bool) (p : positive) (g : Z) (my : positive) (E : Z) :
  -1074 <= g <= E -> E <= 971 ->
  2 ^ 52 <= Z.pos my < 2 ^ 53 ->
  Z.pos p < Z.pos my * 2 ^ (E - g) ->
  exists q e,
    binary_round prec emax s p g = S754_finite s q e /\
    fexp prec emax (digits q + e) = e /\
    (e < E \/ (e = E /\ Z.pos q <= Z.pos my)) /\
    (digits p <= 53 -> e <= g /\ Z.pos q = Z.pos p * 2 ^ (g - e)).
Proof.
  intros Hg HE Hmy Hp.
  destruct (Z.le_gt_cases (digits p) 53) as [Hd | Hd].
  - destruct (binary_round_exact s p g) as [q [e [Hr [Hc [He Hq]]]]]; [lia | assumption |].
    exists q, e. split; [assumption |]. split; [assumption |]. split; [| auto].
    destruct (Z.lt_ge_cases e E) as [HeE | HeE]; [left; assumption | right].
    assert (e = E) by lia. assert (g = E) by lia. subst e g.
    rewrite Z.sub_diag in Hq, Hp. change (2 ^ 0) with 1 in Hq, Hp. split; lia.
  - assert (Hn : digits p - 53 <= E - g).
    { assert (Hlt : Z.pos p < 2 ^ (53 + (E - g))).
      { rewrite Z.pow_add_r by lia.
        assert (0 < 2 ^ (E - g)) by (apply Z.pow_pos_nonneg; lia). nia. }
      pose proof (digits_le p (53 + (E - g)) Hlt). lia. }
    assert (Hpow : 0 < 2 ^ (digits p - 53)) by (apply Z.pow_pos_nonneg; lia).
    destruct (binary_round_inexact s p g) as [q [e [Hr [Hc Hcase]]]]; [lia | assumption |].
    exists q, e.
    assert (Hdiv : g + (digits p - 53) = E -> Z.pos p / 2 ^ (digits p - 53) < Z.pos my).
    { intros HgE. apply Z.div_lt_upper_bound; [assumption |].
      replace (E - g) with (digits p - 53) in Hp by lia. lia. }
    assert (He : e <= E).
    { destruct Hcase as [[He _] | [He [_ Hm]]]; [lia |].
      destruct (Z.eq_dec (g + (digits p - 53)) E) as [HgE | HgE]; [| lia].
      specialize (Hdiv HgE). lia. }
    rewrite Hr. replace (e <=? 971) with true by (symmetry; apply Z.leb_le; lia).
    split; [reflexivity |]. split; [assumption |]. split; [| lia].
    destruct (Z.lt_ge_cases e E) as [HeE | HeE]; [left; assumption | right].
    split; [lia |].
    destruct Hcase as [[He' Hq] | [He' [Hq _]]].
    + assert (HgE : g + (digits p - 53) = E) by lia. specialize (Hdiv HgE). lia.
    + lia.
Qed.

(** The truncated remainder is below the divisor and the dividend in
    magnitude and has the sign of the dividend. *)
Lemma rem_facts (a b : Z) :
  0 < b ->
  Z.abs (Z.rem a b) < b /\ Z.abs (Z.rem a b) <= Z.abs a /\
  (0 <= a -> 0 <= Z.rem a b) /\ (a <= 0 -> Z.rem a b <= 0).
Proof.
  intros Hb. destruct (Z.le_gt_cases 0 a) as [Ha | Ha].
  - pose proof (Z.rem_bound_pos a b Ha Hb). pose proof (Z.rem_le a b Ha Hb). lia.
  - assert (Ha' : 0 <= - a) by lia.
    pose proof (Z.rem_bound_pos (- a) b Ha' Hb) as H1.
    pose proof (Z.rem_le (- a) b Ha' Hb) as H2.
    rewrite Z.rem_opp_l in H1, H2 by lia. lia.
Qed.

(** A finite float is a zero or a signed mantissa with an exponent. *)
Lemma finite_cases (x : float) :
  is_finite x = true ->
  (exists s, Prim2SF x = S754_zero s) \/ (exists s m e, Prim2SF x = S754_finite s m e).
Proof.
  unfold is_finite, Prim2SF. intros Hf.
  destruct (is_nan x); [discriminate |].
  destruct (is_zero x); [left; eauto |].
  destruct (is_infinity x); [discriminate |].
  destruct (Z.frexp x) as [r ex].
  destruct (shr_fexp _ _ _ _ _) as [mrs e'].
  destruct (shr_m mrs); [left | right | left]; eauto.
Qed.

Lemma valid_finite (s : bool) (m : positive) (e : Z) :
  valid_binary (S754_finite s m e) = true ->
  digits m <= 53 /\ -1074 <= e <= 971.
Proof.
  unfold SpecFloat.valid_binary, SpecFloat.bounded, canonical_mantissa.
  fold (digits m). rewrite emax_prec, fexp_eq.
  intros Hv. apply andb_prop in Hv. destruct Hv as [Hc He].
  apply Z.eqb_eq in Hc. apply Z.leb_le in He. lia.
Qed.

Lemma finite_valid (s : bool) (m : positive) (e : Z) :
  fexp prec emax (digits m + e) = e -> e <= 971 ->
  valid_binary (S754_finite s m e) = true.
Proof.
  intros Hc He.
  unfold SpecFloat.valid_binary, SpecFloat.bounded, canonical_mantissa.
  fold (digits m). rewrite emax_prec.
  apply andb_true_intro. split; [apply Z.eqb_eq; assumption | apply Z.leb_le; assumption].
Qed.

Lemma Prim2SF_zero : Prim2SF zero = S754_zero false.
Proof. reflexivity. Qed.

(** The divisor: a positive normal float [my * 2^E]. *)
Variables (y : float) (my : positive) (E : Z).
Hypothesis y_finite : Prim2SF y = S754_finite false my E.
Hypothesis y_normal : 2 ^ 52 <= Z.pos my < 2 ^ 53.

Lemma y_exponent : -1074 <= E <= 971.
Proof.
  pose proof (Prim2SF_valid y) as Hv. rewrite y_finite in Hv.
  apply valid_finite in Hv. lia.
Qed.

Lemma y_positive :
  (y =? zero)%float = false /\ (y <? zero)%float = false /\ get_sign y = false.
Proof.
  assert (H1 : (y =? zero)%float = false).
  { rewrite FloatAxioms.eqb_spec, y_finite, Prim2SF_zero. reflexivity. }
  assert (H2 : (y <? zero)%float = false).
  { rewrite FloatAxioms.ltb_spec, y_finite, Prim2SF_zero. reflexivity. }
  split; [assumption |]. split; [assumption |].
  unfold get_sign, is_zero. rewrite H1. assumption.
Qed.

(** [fmod x y] for a finite [x]: a zero, or a float below [y] in magnitude
    which is computed without rounding. *)
Lemma fmod_cases (x : float) :
  is_finite x = true ->
  (Binary64.fmod x y = zero \/ Binary64.fmod x y = neg_zero) \/
  (exists s q e,
     Prim2SF (Binary64.fmod x y) = S754_finite s q e /\
     -1074 <= e <= E /\ Z.pos q < Z.pos my * 2 ^ (E - e)).
Proof.
  intros Hf. pose proof y_exponent as HE.
  unfold Binary64.fmod, Binary64.to_ZE. rewrite y_finite.
  change (Z.pos my =? 0) with false. cbv iota.
  destruct (finite_cases x Hf) as [[s Hx] | [s [mx [ex Hx]]]].
  - rewrite Hx. left. cbn -[get_sign]. destruct (get_sign x); auto.
  - pose proof (Prim2SF_valid x) as Hv. rewrite Hx in Hv.
    apply valid_finite in Hv. destruct Hv as [Hdx Hex].
    rewrite Hx.
    set (e := Z.min ex E).
    set (a := (if s then Z.neg mx else Z.pos mx) * 2 ^ (ex - e)).
    set (b := Z.pos my * 2 ^ (E - e)).
    assert (Hb : 0 < b).
    { unfold b. apply Z.mul_pos_pos; [lia | apply Z.pow_pos_nonneg; unfold e; lia]. }
    destruct (rem_facts a b Hb) as [Hrb [Hra [Hrp Hrn]]].
    destruct (Z.rem a b =? 0) eqn:Hr0.
    { left. destruct (get_sign x); auto. }
    right. apply Z.eqb_neq in Hr0.
    assert (He : -1074 <= e <= E) by (unfold e; lia).
    assert (Hd : Z.abs (Z.rem a b) < 2 ^ 53).
    { destruct (Z.le_gt_cases E ex) as [Hc | Hc].
      - assert (e = E) by (unfold e; lia).
        assert (b = Z.pos my).
        { unfold b. replace (E - e) with 0 by lia. change (2 ^ 0) with 1. lia. }
        lia.
      - assert (e = ex) by (unfold e; lia).
        assert (Z.abs a = Z.pos mx).
        { unfold a. replace (ex - e) with 0 by lia. change (2 ^ 0) with 1.
          destruct s; lia. }
        destruct (digits_bounds mx) as [_ Hhi].
        assert (2 ^ digits mx <= 2 ^ 53) by (apply Z.pow_le_mono_r; lia).
        lia. }
    unfold Binary64.of_ZE, binary_normalize.
    destruct (Z.rem a b) as [| pr | pr] eqn:Hr; [congruence | |].
    + destruct (binary_round_below false pr e my E He (proj2 HE) y_normal)
        as [q [f [Hq [Hc [_ Hx']]]]]; [fold b; lia |].
      destruct Hx' as [Hfe Hqv]; [apply digits_le; lia |].
      exists false, q, f. rewrite Hq.
      rewrite Prim2SF_SF2Prim by (apply finite_valid; [assumption | lia]).
      split; [reflexivity |].
      assert (-1074 <= f) by (rewrite fexp_eq in Hc; lia).
      split; [lia |].
      rewrite Hqv. replace (E - f) with ((E - e) + (e - f)) by lia.
      rewrite Z.pow_add_r by lia. fold b.
      assert (0 < 2 ^ (e - f)) by (apply Z.pow_pos_nonneg; lia). nia.
    + destruct (binary_round_below true pr e my E He (proj2 HE) y_normal)
        as [q [f [Hq [Hc [_ Hx']]]]]; [fold b; lia |].
      destruct Hx' as [Hfe Hqv]; [apply digits_le; lia |].
      exists true, q, f. rewrite Hq.
      rewrite Prim2SF_SF2Prim by (apply finite_valid; [assumption | lia]).
      split; [reflexivity |].
      assert (-1074 <= f) by (rewrite fexp_eq in Hc; lia).
      split; [lia |].
      rewrite Hqv. replace (E - f) with ((E - e) + (e - f)) by lia.
      rewrite Z.pow_add_r by lia. fold b.
      assert (0 < 2 ^ (e - f)) by (apply Z.pow_pos_nonneg; lia). nia.
Qed.

(** The float [%] by a positive normal float [y] maps every finite float
    into [[0, y]], both ends included. *)
Lemma rem_in_range (x : float) :
  is_finite x = true ->
  (zero <=? Binary64.rem x y)%float = true /\ (Binary64.rem x y <=? y)%float = true.
Proof.
  intros Hf. pose proof y_exponent as HE.
  destruct y_positive as [Hy0 [Hyn Hys]].
  assert (Hzero : (zero <=? zero)%float = true /\ (zero <=? y)%float = true).
  { split; [reflexivity |]. rewrite FloatAxioms.leb_spec, y_finite, Prim2SF_zero. reflexivity. }
  unfold Binary64.rem. cbv zeta. change 0%float with zero.
  destruct (fmod_cases x Hf) as [[Hm | Hm] | [s [q [e [Hm [He Hq]]]]]].
  - rewrite Hm. change (zero =? zero)%float with true. cbv iota. rewrite Hys. exact Hzero.
  - rewrite Hm. change (neg_zero =? zero)%float with true. cbv iota. rewrite Hys. exact Hzero.
  - set (m := Binary64.fmod x y) in *.
    assert (Hm0 : (m =? zero)%float = false).
    { rewrite FloatAxioms.eqb_spec, Hm, Prim2SF_zero. destruct s; reflexivity. }
    assert (Hmn : (m <? zero)%float = s).
    { rewrite FloatAxioms.ltb_spec, Hm, Prim2SF_zero. destruct s; reflexivity. }
    rewrite Hm0, Hyn, Hmn. cbn [xorb].
    destruct s.
    + rewrite !FloatAxioms.leb_spec, add_spec, Hm, y_finite, Prim2SF_zero.
      unfold SF64add, SFadd.
      replace (IntDef.Z.min e E) with e by lia.
      rewrite (shl_align_ge q e e) by lia.
      destruct (shl_align_le my E e) as [my' [Hal Hv]]; [lia |].
      rewrite Hal. cbn [fst cond_Zopp].
      destruct (- Z.pos q + Z.pos my') as [| ps | ps] eqn:Hs; [lia | | lia].
      unfold binary_normalize.
      destruct (binary_round_below false ps e my E He (proj2 HE) y_normal)
        as [q' [e' [Hr [_ [Hle _]]]]]; [lia |].
      rewrite Hr. split; [reflexivity | apply SFleb_finite; assumption].
    + rewrite !FloatAxioms.leb_spec, Hm, y_finite, Prim2SF_zero.
      split; [reflexivity |]. apply SFleb_finite.
      destruct (Z.lt_ge_cases e E) as [HeE | HeE]; [left; assumption | right].
      assert (e = E) by lia. subst e.
      rewrite Z.sub_diag in Hq. change (2 ^ 0) with 1 in Hq. split; lia.
Qed.

End Binary64Wrap.

(** ** The assertion of [angle2class] in binary64 *)

Section Angle2ClassBinary64.

(** [2 * np.pi] is the normal float [7074237752028440 * 2^-50]. *)
Lemma binary64_two_pi_finite :
  Prim2SF (two_pi : float) = S754_finite false 7074237752028440 (-50).
Proof. vm_compute. reflexivity. Qed.

(** The wrapped angle passes the assertion's two comparisons. *)
Lemma binary64_wrap_in_range (angle : float) :
  is_finite angle = true ->
  fle (of_literal 0%Q) (frem angle two_pi) = true /\
  fle (frem angle two_pi) two_pi = true.
Proof.
  intros Hf.
  assert (Hn : (2 ^ 52 <= Z.pos 7074237752028440 < 2 ^ 53)%Z)
    by (rewrite pow2_52, pow2_53; lia).
  exact (rem_in_range two_pi 7074237752028440 (-50) binary64_two_pi_finite Hn angle Hf).
Qed.

(** C9 (binary64).  For every finite float [angle], the wrapped angle
    [angle % (2 * np.pi)] the interpreter computes satisfies both
    comparisons of the assertion, [0 <= angle] and [angle <= 2 * np.pi], so
    [angle2class] does not raise [AssertionError], whatever the class
    count.  The upper comparison is reached with equality
    ([binary64_wrap_reaches_two_pi]). *)
Theorem angle2class_binary64_assertion_holds (angle : float) (N : Z) :
  is_finite angle = true ->
  fle (of_literal 0%Q) (frem angle two_pi) = true /\
  fle (frem angle two_pi) two_pi = true /\
  angle2class angle N <> Raise AssertionError.
Proof.
  intros Hf. destruct (binary64_wrap_in_range angle Hf) as [H0 H1].
  split; [assumption |]. split; [assumption |].
  unfold angle2class. cbv zeta. rewrite H0, H1. cbn [andb negb].
  unfold py_float, py_div, py_int, lookup_or.
  destruct (of_int N) as [n |]; cbn [bind]; [| discriminate].
  destruct (feq n (of_literal 0%Q)); cbn [bind]; [discriminate |].
  destruct (feq (fdiv two_pi n) (of_literal 0%Q)); cbn [bind]; [discriminate |].
  destruct (to_int _) as [class_id |]; cbn [bind]; [| discriminate].
  destruct (of_int class_id) as [c |]; cbn [bind]; discriminate.
Qed.

(** The statement at the angle [-1e-20], which wraps to [2 * np.pi] itself,
    with twelve classes. *)
Lemma angle2class_binary64_assertion_holds_witness :
  fle (of_literal 0%Q) (frem (-1e-20)%float two_pi) = true /\
  fle (frem (-1e-20)%float two_pi) two_pi = true /\
  angle2class (-1e-20)%float 12 <> Raise AssertionError.
Proof.
  apply (angle2class_binary64_assertion_holds (-1e-20)%float 12). reflexivity.
Defined.

End Angle2ClassBinary64.

(** ** [angle2class] *)

Section Angle2Class.

Local Open Scope R_scope.

Lemma shifted_bounds (a : R) (N : Z) : 0 <= shifted a N < 2 * PI.
Proof. unfold shifted. apply rem_bounds, two_pi_pos. Qed.

(** The shifted angle is the input angle plus half a bin, up to whole turns. *)
Lemma shifted_congruent (a : R) (N : Z) :
  exists k : Z, shifted a N = a + bin_width N / 2 + IZR k * (2 * PI).
Proof.
  exists (- (Exact.floor (a / (2 * PI))
             + Exact.floor ((Exact.rem a (2 * PI) + bin_width N / 2) / (2 * PI))))%Z.
  unfold shifted. unfold Exact.rem at 1.
  rewrite opp_IZR, plus_IZR. unfold Exact.rem. lra.
Qed.

Lemma class_in_range (a : R) (N : Z) :
  (1 <= N)%Z -> (0 <= Exact.floor (shifted a N / bin_width N) < N)%Z.
Proof.
  intros HN.
  pose proof (bin_width_pos N HN) as Hw.
  pose proof (bin_width_total N HN) as Ht.
  destruct (shifted_bounds a N) as [Slo Shi].
  assert (Hq : shifted a N = shifted a N / bin_width N * bin_width N) by (field; lra).
  assert (Hq0 : 0 <= shifted a N / bin_width N).
  { apply Rmult_le_reg_r with (r := bin_width N); [assumption | lra]. }
  assert (HqN : shifted a N / bin_width N < IZR N).
  { apply Rmult_lt_reg_r with (r := bin_width N); [assumption | lra]. }
  split.
  - apply floor_nonneg. assumption.
  - destruct (floor_spec (shifted a N / bin_width N)) as [Flo _].
    apply lt_IZR. lra.
Qed.

Lemma residual_in_bin (a : R) (N : Z) :
  (1 <= N)%Z ->
  - (bin_width N / 2)
  <= shifted a N
     - (IZR (Exact.floor (shifted a N / bin_width N)) * bin_width N + bin_width N / 2)
  < bin_width N / 2.
Proof.
  intros HN.
  pose proof (bin_width_pos N HN) as Hw.
  destruct (floor_spec (shifted a N / bin_width N)) as [Flo Fhi].
  assert (Hq : shifted a N = shifted a N / bin_width N * bin_width N) by (field; lra).
  apply Rmult_le_compat_r with (r := bin_width N) in Flo; [| lra].
  apply Rmult_lt_compat_r with (r := bin_width N) in Fhi; [| lra].
  lra.
Qed.

(** In exact arithmetic the class is in range and the pair rebuilds the
    angle up to whole turns, for every angle and every positive class
    count. *)
Lemma angle2class_exact_decomposition (a : R) (N : Z) :
  (1 <= N)%Z ->
  exists (class_id : Z) (residual : R),
    angle2class a N = Ok (class_id, residual) /\
    (0 <= class_id < N)%Z /\
    exists k : Z, IZR class_id * (2 * PI / IZR N) + residual = a + IZR k * (2 * PI).
Proof.
  intros HN. rewrite (angle2class_exact a N HN).
  eexists. eexists. split; [reflexivity |]. split.
  - apply class_in_range. assumption.
  - destruct (shifted_congruent a N) as [k Hk]. exists k.
    fold (bin_width N). lra.
Qed.

(** C1 (evaluation in binary64).  With twelve classes and the angle
    [6.021385919380436], which lies in [[0, 2*pi)], the quotient
    [shifted_angle / angle_per_class] rounds up to [12.0]: [angle2class]
    returns the class 12, outside [0 .. 11]. *)
Theorem angle2class_binary64_class_out_of_range :
  (0 <=? 0x1.815e630c155e1p+2)%float = true /\
  (0x1.815e630c155e1p+2 <? two_pi)%float = true /\
  angle2class 0x1.815e630c155e1p+2%float 12
  = Ok (12%Z, (-0x1.0c152382d7370p-2)%float).
Proof. vm_compute. repeat split. Qed.

(** C10 (exact arithmetic).  For every angle and every positive class
    count, the residual [angle2class] returns lies in
    [[-pi/N, pi/N)]: at most half a bin from the class center. *)
Theorem angle2class_residual_half_bin (angle : R) (N : Z) :
  (1 <= N)%Z ->
  exists (class_id : Z) (residual : R),
    angle2class angle N = Ok (class_id, residual) /\
    - (PI / IZR N) <= residual < PI / IZR N.
Proof.
  intros HN. rewrite (angle2class_exact angle N HN).
  eexists. eexists. split; [reflexivity |].
  pose proof (residual_in_bin angle N HN) as Hb.
  assert (HNr : 0 < IZR N) by (apply IZR_lt; lia).
  replace (PI / IZR N) with (bin_width N / 2) by (unfold bin_width; field; lra).
  exact Hb.
Qed.

(** C10 (evaluation in binary64).  With twelve classes and the angle
    [0.2617993877991494] (half a bin), the residual is
    [-0.26179938779914946], below both [-(angle_per_class / 2)] and
    [-(np.pi / 12)]. *)
Theorem angle2class_binary64_residual_below_half_bin :
  exists residual : float,
    angle2class 0x1.0c152382d7365p-2%float 12 = Ok (1%Z, residual) /\
    (residual <? - (two_pi / 12 / 2))%float = true /\
    (residual <? - (np_pi / 12))%float = true.
Proof. eexists. vm_compute. repeat split. Qed.

(** With 360 classes the binary64 residual leaves the interval on either
    side: it is above [np.pi / 360] at the angle [1.0559241974565694] and
    below [-(np.pi / 360)] at the angle [3.342305517569141]. *)
Example angle2class_binary64_residual_outside_half_bin_360 :
  (exists residual : float,
      angle2class 0x1.0e510c57218a0p+0%float 360 = Ok (60%Z, residual) /\
      (np_pi / 360 <? residual)%float = true) /\
  (exists residual : float,
      angle2class 0x1.abd0aacd99938p+1%float 360 = Ok (192%Z, residual) /\
      (residual <? - (np_pi / 360))%float = true).
Proof. split; eexists; vm_compute; split; reflexivity. Qed.

End Angle2Class.

(** ** Arrays *)

Section ArrayFacts.

Local Open Scope R_scope.

Lemma upd_length (i : nat) (f : R -> R) (l : list R) : length (upd i f l) = length l.
Proof.
  revert i. induction l as [| x r IH]; intros [| j]; simpl; try reflexivity.
  now rewrite IH.
Qed.

(** Reading an entry after an update. *)
Lemma at_upd (i j : nat) (f : R -> R) (l : list R) :
  at_ (upd i f l) j
  = if ((j =? i) && (i <? length l))%nat then f (at_ l i) else at_ l j.
Proof.
  unfold at_. revert i j. induction l as [| x r IH]; intros i j.
  - simpl. destruct (j =? i)%nat, i, j; reflexivity.
  - destruct i as [| i], j as [| j]; simpl; try reflexivity.
    rewrite IH. reflexivity.
Qed.

Lemma at_upd_same (i : nat) (f : R -> R) (l : list R) :
  (i < length l)%nat -> at_ (upd i f l) i = f (at_ l i).
Proof.
  intros Hi. rewrite at_upd, Nat.eqb_refl.
  apply Nat.ltb_lt in Hi. rewrite Hi. reflexivity.
Qed.

Lemma at_upd_other (i j : nat) (f : R -> R) (l : list R) :
  j <> i -> at_ (upd i f l) j = at_ l j.
Proof.
  intros Hij. rewrite at_upd.
  apply Nat.eqb_neq in Hij. rewrite Hij. reflexivity.
Qed.



(** The entries taken are entries of the source. *)
Lemma take_incl {A : Type} (l : list A) (idx : list nat) (out : list A) :
  take l idx = Ok out -> incl out l.
Proof.
  revert out. induction idx as [| i rest IH]; intros out Hout; simpl in Hout.
  - injection Hout as <-. intros x [].
  - destruct (nth_error l i) as [x |] eqn:Hx; simpl in Hout; [| discriminate].
    destruct (take l rest) as [xs | e]; simpl in Hout; [| discriminate].
    injection Hout as <-. intros y [<- | Hy].
    + eapply nth_error_In. exact Hx.
    + apply (IH xs eq_refl). exact Hy.
Qed.

End ArrayFacts.

(** ** [rotate_pc_along_y] *)

Section RotationFacts.

Local Open Scope R_scope.
Local Open Scope py_scope.

Lemma rotate_row_length (c s : R) (p : list R) : length (rotate_row c s p) = length p.
Proof. unfold rotate_row. now rewrite !upd_length. Qed.

Lemma rotate_row_x (c s : R) (p : list R) :
  (2 < length p)%nat -> at_ (rotate_row c s p) 0 = at_ p 0 * c + at_ p 2 * - s.
Proof.
  intros Hp. unfold rotate_row. rewrite at_upd_same; [reflexivity |].
  rewrite upd_length. lia.
Qed.

Lemma rotate_row_z (c s : R) (p : list R) :
  (2 < length p)%nat -> at_ (rotate_row c s p) 2 = at_ p 0 * s + at_ p 2 * c.
Proof.
  intros Hp. unfold rotate_row.
  rewrite at_upd_other by discriminate. rewrite at_upd_same; [reflexivity | lia].
Qed.

(** The y coordinate and the extra channels are left as they are. *)
Lemma rotate_row_other (c s : R) (p : list R) (j : nat) :
  j <> 0%nat -> j <> 2%nat -> at_ (rotate_row c s p) j = at_ p j.
Proof.
  intros H0 H2. unfold rotate_row. now rewrite !at_upd_other.
Qed.

Lemma rotate_row_norm (theta : R) (p : list R) :
  (2 < length p)%nat ->
  at_ (rotate_row (cos theta) (sin theta) p) 0 ^ 2
  + at_ (rotate_row (cos theta) (sin theta) p) 2 ^ 2
  = at_ p 0 ^ 2 + at_ p 2 ^ 2.
Proof.
  intros Hp. rewrite (rotate_row_x _ _ _ Hp), (rotate_row_z _ _ _ Hp).
  pose proof (sin2_cos2 theta) as Hsc. unfold Rsqr in Hsc.
  set (x := at_ p 0). set (z := at_ p 2).
  replace ((x * cos theta + z * - sin theta) ^ 2 + (x * sin theta + z * cos theta) ^ 2)
    with ((x ^ 2 + z ^ 2) * (sin theta * sin theta + cos theta * cos theta)) by ring.
  rewrite Hsc. ring.
Qed.

Lemma rotate_row_zero (p : list R) : rotate_row (cos 0) (sin 0) p = p.
Proof.
  unfold rotate_row, at_. rewrite cos_0, sin_0.
  destruct p as [| x [| y [| z rest]]]; simpl; try reflexivity; f_equal; try ring.
  f_equal. f_equal. ring.
Qed.

Lemma rotate_row_back (theta : R) (p : list R) :
  (2 < length p)%nat ->
  rotate_row (cos (- theta)) (sin (- theta)) (rotate_row (cos theta) (sin theta) p) = p.
Proof.
  intros Hp. rewrite cos_neg, sin_neg.
  pose proof (sin2_cos2 theta) as Hsc. unfold Rsqr in Hsc.
  destruct p as [| x [| y [| z rest]]]; simpl in Hp; try lia.
  unfold rotate_row, at_. simpl.
  f_equal; [| f_equal; f_equal].
  - replace ((x * cos theta + z * - sin theta) * cos theta
             + (x * sin theta + z * cos theta) * - - sin theta)
      with (x * (sin theta * sin theta + cos theta * cos theta)) by ring.
    rewrite Hsc. ring.
  - replace ((x * cos theta + z * - sin theta) * - sin theta
             + (x * sin theta + z * cos theta) * cos theta)
      with (z * (sin theta * sin theta + cos theta * cos theta)) by ring.
    rewrite Hsc. ring.
Qed.

Lemma rotate_returns (pc : ndarray) (theta : R) :
  (2 < ncols pc)%nat ->
  rotate_pc_along_y pc theta
  = Ok {| ncols := ncols pc;
          rows := map (rotate_row (cos theta) (sin theta)) (rows pc) |}.
Proof.
  intros Hc. unfold rotate_pc_along_y.
  apply Nat.ltb_lt in Hc. rewrite Hc. reflexivity.
Qed.

(** C6.  On an array with at least three channels, [rotate_pc_along_y]
    returns an array of the same shape in which every point keeps
    [x^2 + z^2] (and its other channels); rotating by [0] returns the
    array itself; rotating by [theta] and then by [- theta] returns the
    original array. *)
Theorem rotate_pc_along_y_is_rotation (pc : ndarray) (theta : R) :
  rectangular pc ->
  (2 < ncols pc)%nat ->
  (exists pc' : ndarray,
      rotate_pc_along_y pc theta = Ok pc' /\
      ncols pc' = ncols pc /\
      Forall2 (fun p p' =>
                 at_ p' 0 ^ 2 + at_ p' 2 ^ 2 = at_ p 0 ^ 2 + at_ p 2 ^ 2 /\
                 length p' = length p /\
                 forall j, j <> 0%nat -> j <> 2%nat -> at_ p' j = at_ p j)
              (rows pc) (rows pc')) /\
  rotate_pc_along_y pc 0 = Ok pc /\
  (pc1 <- rotate_pc_along_y pc theta ;; rotate_pc_along_y pc1 (- theta)) = Ok pc.
Proof.
  intros Hrect Hc. unfold rectangular in Hrect.
  rewrite (rotate_returns pc theta Hc), (rotate_returns pc 0 Hc). cbn [bind].
  rewrite rotate_returns by exact Hc. cbn [rows ncols].
  split; [| split].
  - eexists. split; [reflexivity |]. split; [reflexivity |]. cbn [rows].
    induction Hrect as [| p rest Hp _ IH]; simpl; constructor; [| exact IH].
    split; [| split].
    + apply rotate_row_norm. lia.
    + apply rotate_row_length.
    + intros j H0 H2. apply rotate_row_other; assumption.
  - destruct pc as [n rs]. cbn [rows ncols]. do 2 f_equal.
    rewrite <- (map_id rs) at 2. apply map_ext. intros p. apply rotate_row_zero.
  - destruct pc as [n rs]. cbn [rows ncols] in *. do 2 f_equal.
    rewrite map_map. rewrite <- (map_id rs) at 2.
    apply map_ext_in. intros p Hin. apply rotate_row_back.
    rewrite Forall_forall in Hrect. rewrite (Hrect p Hin). exact Hc.
Qed.

End RotationFacts.

(** ** [size2class] *)

Section Size2Class.

Local Open Scope R_scope.


(** C7 (exact arithmetic).  For every 3-vector [size], [size2class]
    returns the componentwise difference [size - __box_mean], and adding
    [__box_mean] back gives [size]. *)
Theorem size2class_exact_invertible (size : list R) :
  length size = 3%nat ->
  exists size_residual : list R,
    size2class size = Ok size_residual /\
    length size_residual = 3%nat /\
    (forall i, (i < 3)%nat -> at_ size_residual i = at_ size i - at_ box_mean i) /\
    np_add size_residual box_mean = Ok size.
Proof.
  intros Hlen.
  destruct size as [| l [| w [| h [| extra rest]]]]; simpl in Hlen; try discriminate.
  unfold size2class, np_sub, np_add, np_elementwise, box_mean.
  cbn [length Nat.eqb combine map fst snd fsub fadd of_literal Exact.exact_float].
  eexists. split; [reflexivity |]. split; [reflexivity |]. split.
  - intros i Hi. destruct i as [| [| [| i]]]; try lia; reflexivity.
  - cbn [length Nat.eqb combine map fst snd].
    f_equal. f_equal; [ring |]. f_equal; [ring |]. f_equal. ring.
Qed.

(** The statement at the box size [(3.5, 1.6, 1.5)]. *)
Lemma size2class_exact_invertible_witness :
  exists size_residual : list R,
    size2class [3.5; 1.6; 1.5] = Ok size_residual /\
    length size_residual = 3%nat /\
    (forall i, (i < 3)%nat ->
               at_ size_residual i = at_ [3.5; 1.6; 1.5] i - at_ box_mean i) /\
    np_add size_residual box_mean = Ok [3.5; 1.6; 1.5].
Proof. apply (size2class_exact_invertible [3.5; 1.6; 1.5]). reflexivity. Defined.

(** C7 (evaluation in binary64).  For the box size [(0.84, 0.6, 1.76)],
    [size2class(size) + __box_mean] is
    [(0.8399999999999999, 0.5999999999999999, 1.76)]: its first two
    components differ from those of [size]. *)
Theorem size2class_binary64_not_invertible :
  exists size_residual back : list float,
    size2class [0.84; 0.6; 1.76]%float = Ok size_residual /\
    np_add size_residual box_mean = Ok back /\
    back = [0x1.ae147ae147ae0p-1; 0x1.3333333333332p-1; 1.76]%float /\
    map (fun p => feq (fst p) (snd p)) (combine back [0.84; 0.6; 1.76]%float)
    = [false; false; true].
Proof.
  eexists. eexists.
  split; [vm_compute; reflexivity |].
  split; [vm_compute; reflexivity |].
  split; vm_compute; reflexivity.
Qed.

End Size2Class.

(** ** The augmentation of [myPointData.__getitem__] *)

Section AugmentFacts.

Local Open Scope R_scope.
Local Open Scope py_scope.

Lemma Forall2_map_right {A B : Type} (Q : A -> Prop) (P : A -> B -> Prop)
    (f : A -> B) (l : list A) :
  (forall x, Q x -> P x (f x)) -> Forall Q l -> Forall2 P l (map f l).
Proof.
  intros HP. induction 1 as [| x r Hx _ IH]; simpl; constructor; auto.
Qed.

Lemma column_update_returns (a : ndarray) (j : nat) (f : R -> R) :
  (j < ncols a)%nat ->
  column_update a j f = Ok {| ncols := ncols a; rows := map (upd j f) (rows a) |}.
Proof.
  intros Hj. unfold column_update. apply Nat.ltb_lt in Hj. rewrite Hj. reflexivity.
Qed.

Lemma item_update_returns (l : list R) (i : nat) (f : R -> R) :
  (i < length l)%nat -> item_update l i f = Ok (upd i f l).
Proof.
  intros Hi. unfold item_update. apply Nat.ltb_lt in Hi. rewrite Hi. reflexivity.
Qed.

Lemma np_clip_bounds (x lo hi : R) : lo <= hi -> lo <= np_clip x lo hi <= hi.
Proof.
  intros Hlh. unfold np_clip, Rmin, Rmax.
  destruct (Rle_dec x lo); destruct (Rle_dec _ hi); lra.
Qed.

Lemma shift_returns (w : PointWorld) (pts : ndarray) (center : list R) :
  (2 < ncols pts)%nat ->
  (2 < length center)%nat ->
  shift w pts center
  = Ok ({| ncols := ncols pts;
           rows := map (upd 2 (fun z => z + shift_value w center)) (rows pts) |},
        upd 2 (fun z => z + shift_value w center) center).
Proof.
  intros Hc Hl. unfold shift, item.
  destruct center as [| c0 [| c1 [| c2 rest]]]; simpl in Hl; try lia.
  cbn [nth_error lookup_or bind].
  rewrite column_update_returns by exact Hc. cbn [bind].
  rewrite item_update_returns by (simpl; lia). reflexivity.
Qed.

Lemma flip_returns (pts : ndarray) (center : list R) (head : R) :
  (0 < ncols pts)%nat ->
  (0 < length center)%nat ->
  flip pts center head
  = Ok ({| ncols := ncols pts; rows := map (upd 0 (fun x => x * -1)) (rows pts) |},
        upd 0 (fun x => x * -1) center,
        PI - head).
Proof.
  intros Hc Hl. unfold flip.
  rewrite column_update_returns by exact Hc. cbn [bind].
  rewrite item_update_returns by exact Hl. reflexivity.
Qed.

(** C4.  With [random_flip] set and the draw above 0.5, the points, the
    box center and the heading that enter the rotation have: the x of every
    point negated, the x of the box center negated, and the heading
    replaced by [pi - heading]. *)
Theorem flip_negates_x_and_reflects_heading
    (self : myPointData) (w : PointWorld) (pts : ndarray) (center : list R) (head : R) :
  random_flip self = true ->
  0.5 < random_draw w ->
  rectangular pts ->
  (2 < ncols pts)%nat ->
  length center = 3%nat ->
  exists (pts' : ndarray) (center' : list R) (head' : R),
    augment self w pts center head = Ok (pts', center', head') /\
    Forall2 (fun p p' => at_ p' 0 = - at_ p 0) (rows pts) (rows pts') /\
    at_ center' 0 = - at_ center 0 /\
    head' = PI - head.
Proof.
  intros Hflip Hdraw Hrect Hc Hl.
  unfold augment, flip_stage, shift_stage.
  rewrite Hflip, (Rltb_true _ _ Hdraw).
  rewrite flip_returns by lia. cbn [bind].
  destruct (random_shift self).
  - rewrite shift_returns by (cbn [ncols]; rewrite ?upd_length; lia).
    cbn [bind ncols rows].
    eexists. eexists. eexists. split; [reflexivity |]. split; [| split].
    + rewrite map_map. apply Forall2_map_right with (Q := fun p => length p = ncols pts).
      * intros p Hp. rewrite at_upd_other by discriminate.
        rewrite at_upd_same by lia. ring.
      * exact Hrect.
    + rewrite at_upd_other by discriminate. rewrite at_upd_same by lia. ring.
    + reflexivity.
  - cbn [bind].
    eexists. eexists. eexists. split; [reflexivity |]. split; [| split].
    + apply Forall2_map_right with (Q := fun p => length p = ncols pts).
      * intros p Hp. rewrite at_upd_same by lia. ring.
      * exact Hrect.
    + rewrite at_upd_same by lia. ring.
    + reflexivity.
Qed.

(** Without the flip (the flag unset, or the draw at most 0.5) none of the
    three is touched: the x of every point, the x of the box center and the
    heading enter the rotation as they were. *)
Lemma without_flip_x_and_heading_kept
    (self : myPointData) (w : PointWorld) (pts : ndarray) (center : list R) (head : R) :
  random_flip self = false \/ random_draw w <= 0.5 ->
  rectangular pts ->
  (2 < ncols pts)%nat ->
  length center = 3%nat ->
  exists (pts' : ndarray) (center' : list R),
    augment self w pts center head = Ok (pts', center', head) /\
    Forall2 (fun p p' => at_ p' 0 = at_ p 0) (rows pts) (rows pts') /\
    at_ center' 0 = at_ center 0.
Proof.
  intros Hno Hrect Hc Hl.
  assert (Hstage : flip_stage self w pts center head = Ok (pts, center, head)).
  { unfold flip_stage. destruct Hno as [Hoff | Hlow].
    - rewrite Hoff. reflexivity.
    - rewrite (Rltb_false _ _ Hlow). destruct (random_flip self); reflexivity. }
  unfold augment, shift_stage. rewrite Hstage. cbn [bind].
  destruct (random_shift self).
  - rewrite shift_returns by lia. cbn [bind rows].
    eexists. eexists. split; [reflexivity |]. split.
    + apply Forall2_map_right with (Q := fun p => length p = ncols pts).
      * intros p Hp. apply at_upd_other. discriminate.
      * exact Hrect.
    + apply at_upd_other. discriminate.
  - cbn [bind]. eexists. eexists. split; [reflexivity |]. split.
    + rewrite <- (map_id (rows pts)) at 2.
      apply Forall2_map_right with (Q := fun _ => True).
      * reflexivity.
      * apply Forall_forall. intros; exact I.
    + reflexivity.
Qed.

(** C5.  With [random_shift] set, the shift stage computes one value
    [shift]: the Gaussian draw times [0.05 * dist], clipped into
    [[0.8 * dist, 1.2 * dist]], where [dist] is the square root of
    [center[0]^2 + center[1]^2]; it adds [shift] to the z of every point and
    of the box center, and leaves every other entry as it is. *)
Theorem shift_adds_one_value_to_z
    (self : myPointData) (w : PointWorld) (pts : ndarray) (center : list R) :
  random_shift self = true ->
  rectangular pts ->
  (2 < ncols pts)%nat ->
  length center = 3%nat ->
  let dist := sqrt (at_ center 0 ^ 2 + at_ center 1 ^ 2) in
  let shift := Rmin (Rmax (randn_draw w * dist * 0.05) (dist * 0.8)) (dist * 1.2) in
  dist * 0.8 <= shift <= dist * 1.2 /\
  exists (pts' : ndarray) (center' : list R),
    shift_stage self w pts center = Ok (pts', center') /\
    ncols pts' = ncols pts /\
    Forall2 (fun p p' =>
               length p' = length p /\
               at_ p' 2 = at_ p 2 + shift /\
               forall j, j <> 2%nat -> at_ p' j = at_ p j)
            (rows pts) (rows pts') /\
    length center' = 3%nat /\
    at_ center' 2 = at_ center 2 + shift /\
    forall j, j <> 2%nat -> at_ center' j = at_ center j.
Proof.
  intros Hshift Hrect Hc Hl dist shift.
  assert (Hd : 0 <= dist) by apply sqrt_pos.
  split.
  - apply np_clip_bounds. lra.
  - unfold shift_stage. rewrite Hshift.
    rewrite shift_returns by lia.
    change (shift_value w center) with shift.
    eexists. eexists. split; [reflexivity |]. cbn [ncols rows].
    split; [reflexivity |]. split; [| split; [| split]].
    + apply Forall2_map_right with (Q := fun p => length p = ncols pts).
      * intros p Hp. split; [apply upd_length |]. split.
        -- apply at_upd_same. lia.
        -- intros j Hj. apply at_upd_other. exact Hj.
      * exact Hrect.
    + rewrite upd_length. exact Hl.
    + apply at_upd_same. lia.
    + intros j Hj. apply at_upd_other. exact Hj.
Qed.

End AugmentFacts.

(** ** [myPointData.__getitem__] *)

Section PointDataFacts.

Local Open Scope R_scope.
Local Open Scope py_scope.


(** With no point to draw from, asking for a sample raises. *)
Lemma np_random_choice_empty (w : PointWorld) (k : Z) :
  (0 < k)%Z -> np_random_choice w 0 k = Raise ValueError.
Proof.
  intros Hk. unfold np_random_choice.
  assert (Hk' : (k <? 0)%Z = false) by (apply Z.ltb_ge; lia).
  assert (Hk0 : (k =? 0)%Z = false) by (apply Z.eqb_neq; lia).
  rewrite Hk', Hk0. reflexivity.
Qed.



End PointDataFacts.

(** ** Evaluations of [myPointData.__getitem__] *)

Section PointDataSamples.

Local Open Scope R_scope.

Lemma sample_two_points_rectangular : rectangular Sample.two_points.
Proof. repeat constructor. Qed.





End PointDataSamples.

(** ** Instances on the sample data *)

Section Witnesses.

Local Open Scope R_scope.

(** The statement at the angle [-1] with twelve classes. *)
Lemma angle2class_residual_half_bin_witness :
  exists (class_id : Z) (residual : R),
    angle2class (-1) 12 = Ok (class_id, residual) /\
    - (PI / IZR 12) <= residual < PI / IZR 12.
Proof. apply (angle2class_residual_half_bin (-1) 12). lia. Defined.

(** The statement on the sample cloud, rotated by [pi / 6]. *)
Lemma rotate_pc_along_y_is_rotation_witness :
  (exists pc' : ndarray,
      rotate_pc_along_y Sample.two_points (PI / 6) = Ok pc' /\
      ncols pc' = ncols Sample.two_points /\
      Forall2 (fun p p' =>
                 at_ p' 0 ^ 2 + at_ p' 2 ^ 2 = at_ p 0 ^ 2 + at_ p 2 ^ 2 /\
                 length p' = length p /\
                 forall j, j <> 0%nat -> j <> 2%nat -> at_ p' j = at_ p j)
              (rows Sample.two_points) (rows pc')) /\
  rotate_pc_along_y Sample.two_points 0 = Ok Sample.two_points /\
  bind (rotate_pc_along_y Sample.two_points (PI / 6))
       (fun pc1 => rotate_pc_along_y pc1 (- (PI / 6)))
  = Ok Sample.two_points.
Proof.
  apply (rotate_pc_along_y_is_rotation Sample.two_points (PI / 6)).
  - apply sample_two_points_rectangular.
  - unfold Sample.two_points. simpl. lia.
Defined.

(** The statement on the sample cloud: the sample draw is 0.75. *)
Lemma flip_negates_x_and_reflects_heading_witness :
  exists (pts' : ndarray) (center' : list R) (head' : R),
    augment Sample.dataset (Sample.world (Sample.record Sample.two_points [1; 0]%Z))
            Sample.two_points [1; 1.5; 10] 0.25
    = Ok (pts', center', head') /\
    Forall2 (fun p p' => at_ p' 0 = - at_ p 0) (rows Sample.two_points) (rows pts') /\
    at_ center' 0 = - at_ [1; 1.5; 10] 0 /\
    head' = PI - 0.25.
Proof.
  apply (flip_negates_x_and_reflects_heading Sample.dataset
           (Sample.world (Sample.record Sample.two_points [1; 0]%Z))
           Sample.two_points [1; 1.5; 10] 0.25).
  - reflexivity.
  - unfold Sample.world. simpl. lra.
  - apply sample_two_points_rectangular.
  - unfold Sample.two_points. simpl. lia.
  - reflexivity.
Defined.

(** The statement on the sample cloud with the box center [(3, 4, 10)]. *)
Lemma shift_adds_one_value_to_z_witness :
  let dist := sqrt (at_ [3; 4; 10] 0 ^ 2 + at_ [3; 4; 10] 1 ^ 2) in
  let shift := Rmin (Rmax (0 * dist * 0.05) (dist * 0.8)) (dist * 1.2) in
  dist * 0.8 <= shift <= dist * 1.2 /\
  exists (pts' : ndarray) (center' : list R),
    shift_stage Sample.dataset (Sample.world (Sample.record Sample.two_points [1; 0]%Z))
                Sample.two_points [3; 4; 10]
    = Ok (pts', center') /\
    ncols pts' = ncols Sample.two_points /\
    Forall2 (fun p p' =>
               length p' = length p /\
               at_ p' 2 = at_ p 2 + shift /\
               forall j, j <> 2%nat -> at_ p' j = at_ p j)
            (rows Sample.two_points) (rows pts') /\
    length center' = 3%nat /\
    at_ center' 2 = at_ [3; 4; 10] 2 + shift /\
    forall j, j <> 2%nat -> at_ center' j = at_ [3; 4; 10] j.
Proof.
  apply (shift_adds_one_value_to_z Sample.dataset
           (Sample.world (Sample.record Sample.two_points [1; 0]%Z))
           Sample.two_points [3; 4; 10]).
  - reflexivity.
  - apply sample_two_points_rectangular.
  - unfold Sample.two_points. simpl. lia.
  - reflexivity.
Defined.

End Witnesses.

(** ** Images, tensors and slices *)

Section ImageFacts.

Local Open Scope R_scope.
Local Open Scope py_scope.

Lemma zrange_length (n : Z) : length (zrange n) = Z.to_nat n.
Proof. unfold zrange. now rewrite length_map, length_seq. Qed.

Lemma to_tensor_shape (img : Image RGB) :
  has_shape (to_tensor img) 3 (Z.to_nat (height img)) (Z.to_nat (width img)).
Proof.
  unfold has_shape, to_tensor. split.
  - rewrite length_map, length_seq. reflexivity.
  - apply Forall_map, Forall_forall. intros c _. split.
    + rewrite length_map. apply zrange_length.
    + apply Forall_map, Forall_forall. intros y _.
      rewrite length_map. apply zrange_length.
Qed.

Lemma normalize_shape (mean std : list R) (t : Tensor) (h w : nat) :
  length mean = 3%nat ->
  length std = 3%nat ->
  has_shape t 3 h w ->
  has_shape (normalize mean std t) 3 h w.
Proof.
  intros Hm Hs [Hlen Hch]. unfold has_shape, normalize. split.
  - rewrite length_map, !length_combine, Hlen, Hm, Hs. reflexivity.
  - apply Forall_map, Forall_forall. intros [ch [m s]] Hin.
    apply in_combine_l in Hin. rewrite Forall_forall in Hch.
    destruct (Hch ch Hin) as [Hh Hrows]. split.
    + rewrite length_map. exact Hh.
    + apply Forall_map. rewrite Forall_forall in *. intros row Hrow.
      rewrite length_map. apply Hrows. exact Hrow.
Qed.

(** [get_transform()] turns an image of size [(w, h)] into a tensor of
    shape [(3, h, w)]. *)
Lemma get_transform_shape (img : Image RGB) :
  has_shape (get_transform img) 3 (Z.to_nat (height img)) (Z.to_nat (width img)).
Proof.
  unfold get_transform, scale_crop. cbn [fst snd].
  apply normalize_shape; [reflexivity | reflexivity | apply to_tensor_shape].
Qed.

Lemma ascontiguousarray_shape (img : Image Z) :
  array_shape (ascontiguousarray img) (Z.to_nat (height img)) (Z.to_nat (width img)).
Proof.
  unfold array_shape, ascontiguousarray, nrows, rectangular. cbn [rows ncols].
  split; [| split].
  - rewrite length_map. apply zrange_length.
  - reflexivity.
  - apply Forall_map, Forall_forall. intros y _.
    rewrite length_map. apply zrange_length.
Qed.

Lemma array_div_shape (a : ndarray) (d : R) (h w : nat) :
  array_shape a h w -> array_shape (array_div a d) h w.
Proof.
  unfold array_shape, array_div, nrows, rectangular. cbn [rows ncols].
  intros (Hh & Hw & Hrect). split; [| split].
  - rewrite length_map. exact Hh.
  - exact Hw.
  - apply Forall_map. rewrite Forall_forall in *. intros r Hr.
    rewrite length_map. apply Hrect. exact Hr.
Qed.

Lemma slice_bound_inside (n i : Z) : (0 <= i <= n)%Z -> slice_bound n i = i.
Proof.
  intros Hi. unfold slice_bound.
  destruct (i <? 0)%Z eqn:Hneg; [apply Z.ltb_lt in Hneg; lia | lia].
Qed.

Lemma py_slice_length {A : Type} (l : list A) (i j : Z) :
  (0 <= i <= j)%Z ->
  (j <= Z.of_nat (length l))%Z ->
  length (py_slice l i j) = Z.to_nat (j - i).
Proof.
  intros Hij Hj. unfold py_slice.
  rewrite !slice_bound_inside by lia.
  rewrite length_firstn, length_skipn. lia.
Qed.

Lemma py_slice_incl {A : Type} (l : list A) (i j : Z) (x : A) :
  In x (py_slice l i j) -> In x l.
Proof.
  unfold py_slice. intros Hin.
  set (a := Z.to_nat (slice_bound (Z.of_nat (length l)) i)) in *.
  set (n := Z.to_nat (slice_bound (Z.of_nat (length l)) j - slice_bound (Z.of_nat (length l)) i)) in *.
  rewrite <- (firstn_skipn a l). apply in_or_app. right.
  rewrite <- (firstn_skipn n (skipn a l)). apply in_or_app. left. exact Hin.
Qed.

(** A slice that lies inside the array has the size of its bounds. *)
Lemma array_slice_shape (a : ndarray) (h w : nat) (i0 i1 j0 j1 : Z) :
  array_shape a h w ->
  (0 <= i0 <= i1)%Z -> (i1 <= Z.of_nat h)%Z ->
  (0 <= j0 <= j1)%Z -> (j1 <= Z.of_nat w)%Z ->
  array_shape (array_slice a i0 i1 j0 j1) (Z.to_nat (i1 - i0)) (Z.to_nat (j1 - j0)).
Proof.
  unfold array_shape, array_slice, nrows, rectangular. cbn [rows ncols].
  intros (Hh & Hw & Hrect) Hi0 Hi1 Hj0 Hj1. split; [| split].
  - rewrite length_map. apply py_slice_length; [lia | rewrite Hh; lia].
  - rewrite Hw, !slice_bound_inside by lia. reflexivity.
  - rewrite Hw, !slice_bound_inside by lia.
    apply Forall_map, Forall_forall. intros r Hr.
    apply py_slice_incl in Hr. rewrite Forall_forall in Hrect.
    apply py_slice_length; [lia | rewrite (Hrect r Hr), Hw; lia].
Qed.

Lemma randint_returns (raw a b : Z) :
  (a <= b)%Z -> exists x : Z, randint raw a b = Ok x /\ (a <= x <= b)%Z.
Proof.
  intros Hab. unfold randint.
  assert (Hlt : (b <? a)%Z = false) by (apply Z.ltb_ge; lia).
  rewrite Hlt. eexists. split; [reflexivity |].
  pose proof (Z.mod_pos_bound raw (b - a + 1)). lia.
Qed.

Lemma crop_returns {P : Type} (fill : P) (img : Image P) (l u r b : Z) :
  (l <= r)%Z -> (u <= b)%Z ->
  crop fill img (l, u, r, b) = Ok (crop_region fill img (l, u, r, b)).
Proof.
  intros Hlr Hub. unfold crop.
  assert (H1 : (r <? l)%Z = false) by (apply Z.ltb_ge; lia).
  assert (H2 : (b <? u)%Z = false) by (apply Z.ltb_ge; lia).
  rewrite H1, H2. reflexivity.
Qed.

End ImageFacts.

(** ** [myImageFloder.__getitem__] *)

Section StereoFacts.

Local Open Scope py_scope.

(** The item returned in evaluation mode. *)
Lemma getitem_eval (self : myImageFloder) (wd : StereoWorld) (index : Z)
    (limg rimg : Image RGB) (dataL : option (Image Z)) (nm : string) :
  training self = false ->
  stereo_load self index = Ok (limg, rimg, dataL, nm) ->
  myImageFloder_getitem self wd index
  = Ok (EvalItem
          (get_transform
             (crop_region (0, 0, 0)%Z limg
                (width limg - 1232, height limg - 368, width limg, height limg)%Z))
          (get_transform
             (crop_region (0, 0, 0)%Z rimg
                (width limg - 1232, height limg - 368, width limg, height limg)%Z))
          (match dataL with
           | Some d =>
               DispArray
                 (array_div
                    (ascontiguousarray
                       (crop_region 0%Z d
                          (width limg - 1232, height limg - 368,
                           width limg, height limg)%Z)) 256)
           | None => DispZero
           end)
          nm (width limg) (height limg)).
Proof.
  intros Htr Hload. unfold myImageFloder_getitem.
  rewrite Hload. cbn [bind]. rewrite Htr. cbv zeta.
  rewrite !crop_returns by lia. cbn [bind].
  destruct dataL as [d |].
  - rewrite crop_returns by lia. reflexivity.
  - reflexivity.
Qed.

(** The item returned in training mode, for the origin the two draws give. *)
Lemma getitem_train (self : myImageFloder) (wd : StereoWorld) (index : Z)
    (limg rimg : Image RGB) (dataL : option (Image Z)) (nm : string) :
  training self = true ->
  stereo_load self index = Ok (limg, rimg, dataL, nm) ->
  (512 <= width limg)%Z ->
  (256 <= height limg)%Z ->
  exists x1 y1 : Z,
    (0 <= x1 <= width limg - 512)%Z /\
    (0 <= y1 <= height limg - 256)%Z /\
    myImageFloder_getitem self wd index
    = Ok (TrainItem
            (get_transform
               (crop_region (0, 0, 0)%Z limg (x1, y1, x1 + 512, y1 + 256)%Z))
            (get_transform
               (crop_region (0, 0, 0)%Z rimg (x1, y1, x1 + 512, y1 + 256)%Z))
            (match dataL with
             | Some d =>
                 DispArray
                   (array_slice (array_div (ascontiguousarray d) 256)
                                y1 (y1 + 256) x1 (x1 + 512))
             | None => DispZero
             end)
            nm).
Proof.
  intros Htr Hload Hw Hh. unfold myImageFloder_getitem.
  rewrite Hload. cbn [bind]. rewrite Htr. cbv zeta.
  destruct (randint_returns (randint_raw_x wd) 0 (width limg - 512)) as (x1 & Hx & Hx1);
    [lia |].
  destruct (randint_returns (randint_raw_y wd) 0 (height limg - 256)) as (y1 & Hy & Hy1);
    [lia |].
  exists x1, y1. split; [exact Hx1 |]. split; [exact Hy1 |].
  rewrite Hx. cbn [bind]. rewrite Hy. cbn [bind].
  rewrite !crop_returns by lia. reflexivity.
Qed.

Lemma cropped_tensor_shape (fill : RGB) (img : Image RGB) (l u r b : Z) (w h : nat) :
  (r - l = Z.of_nat w)%Z ->
  (b - u = Z.of_nat h)%Z ->
  has_shape (get_transform (crop_region fill img (l, u, r, b))) 3 h w.
Proof.
  intros Hw Hh.
  replace h with (Z.to_nat (b - u)) by lia.
  replace w with (Z.to_nat (r - l)) by lia.
  apply (get_transform_shape (crop_region fill img (l, u, r, b))).
Qed.

Lemma cropped_array_shape (fill : Z) (img : Image Z) (l u r b : Z) (w h : nat) :
  (r - l = Z.of_nat w)%Z ->
  (b - u = Z.of_nat h)%Z ->
  array_shape (ascontiguousarray (crop_region fill img (l, u, r, b))) h w.
Proof.
  intros Hw Hh.
  replace h with (Z.to_nat (b - u)) by lia.
  replace w with (Z.to_nat (r - l)) by lia.
  apply (ascontiguousarray_shape (crop_region fill img (l, u, r, b))).
Qed.

Lemma sliced_array_shape (a : ndarray) (H W : nat) (i j : Z) (h w : nat) :
  array_shape a H W ->
  (0 <= i)%Z -> (i + Z.of_nat h <= Z.of_nat H)%Z ->
  (0 <= j)%Z -> (j + Z.of_nat w <= Z.of_nat W)%Z ->
  array_shape (array_slice a i (i + Z.of_nat h) j (j + Z.of_nat w)) h w.
Proof.
  intros Ha Hi0 Hi1 Hj0 Hj1.
  pose proof (array_slice_shape a H W i (i + Z.of_nat h) j (j + Z.of_nat w) Ha) as Hs.
  replace (i + Z.of_nat h - i)%Z with (Z.of_nat h) in Hs by lia.
  replace (j + Z.of_nat w - j)%Z with (Z.of_nat w) in Hs by lia.
  rewrite !Nat2Z.id in Hs. apply Hs; lia.
Qed.

(** C8.  When the left image is at least as large as the crop window of
    the mode (and the disparity image, when one is loaded, covers the left
    image), [__getitem__] returns two image tensors, and a disparity map
    when one is loaded, of 256 rows and 512 columns in training mode and of
    368 rows and 1232 columns otherwise. *)
Theorem getitem_fixed_crop_size
    (self : myImageFloder) (wd : StereoWorld) (index : Z)
    (limg rimg : Image RGB) (dataL : option (Image Z)) (nm : string) :
  stereo_load self index = Ok (limg, rimg, dataL, nm) ->
  (if training self
   then 512 <= width limg /\ 256 <= height limg
   else 1232 <= width limg /\ 368 <= height limg)%Z ->
  (forall d, dataL = Some d -> width limg <= width d /\ height limg <= height d)%Z ->
  exists it : StereoItem,
    myImageFloder_getitem self wd index = Ok it /\
    if training self then sized it dataL 256 512 else sized it dataL 368 1232.
Proof.
  intros Hload Hfit Hdisp. destruct (training self) eqn:Htr.
  - destruct Hfit as [Hw Hh].
    destruct (getitem_train self wd index limg rimg dataL nm Htr Hload Hw Hh)
      as (x1 & y1 & Hx1 & Hy1 & Hget).
    rewrite Hget. eexists. split; [reflexivity |].
    unfold sized. cbn [item_left item_right item_disparity].
    split; [| split].
    + apply cropped_tensor_shape; lia.
    + apply cropped_tensor_shape; lia.
    + destruct dataL as [d |]; [| exact I].
      destruct (Hdisp d eq_refl) as [Hdw Hdh].
      apply (sliced_array_shape _ (Z.to_nat (height d)) (Z.to_nat (width d))
                                y1 x1 256 512); try lia.
      apply array_div_shape, ascontiguousarray_shape.
  - rewrite (getitem_eval self wd index limg rimg dataL nm Htr Hload).
    eexists. split; [reflexivity |].
    unfold sized. cbn [item_left item_right item_disparity].
    split; [| split].
    + apply cropped_tensor_shape; lia.
    + apply cropped_tensor_shape; lia.
    + destruct dataL as [d |]; [| exact I].
      apply array_div_shape, cropped_array_shape; lia.
Qed.

End StereoFacts.

(** ** The size returned in evaluation mode *)

Section EvalSize.

(** C3 (amended).  In evaluation mode [__getitem__] ends its tuple with
    [w, h], the width and height of the left image as loaded, before the
    crop; they are [(1232, 368)] exactly when the loaded image already has
    that size. *)
Theorem eval_returns_size_before_crop
    (self : myImageFloder) (wd : StereoWorld) (index : Z)
    (limg rimg : Image RGB) (dataL : option (Image Z)) (nm : string) :
  training self = false ->
  stereo_load self index = Ok (limg, rimg, dataL, nm) ->
  exists it : StereoItem,
    myImageFloder_getitem self wd index = Ok it /\
    item_size it = Some (width limg, height limg) /\
    (item_size it = Some (1232, 368)%Z <-> (width limg = 1232 /\ height limg = 368)%Z).
Proof.
  intros Htr Hload.
  rewrite (getitem_eval self wd index limg rimg dataL nm Htr Hload).
  eexists. split; [reflexivity |]. cbn [item_size].
  split; [reflexivity |]. split.
  - intros Heq. injection Heq as Hw Hh. split; assumption.
  - intros [Hw Hh]. rewrite Hw, Hh. reflexivity.
Qed.

Lemma sample_stereo_load (training : bool) :
  stereo_load (Sample.stereo training) 0
  = Ok (Sample.image 1242 375, Sample.image 1242 375,
        Some (Sample.disparity 1242 375), "000007.png"%string).
Proof. reflexivity. Qed.

(** The statement on the sample pair of 1242 by 375 pixels. *)
Lemma eval_returns_size_before_crop_witness :
  exists it : StereoItem,
    myImageFloder_getitem (Sample.stereo false) Sample.stereo_world 0 = Ok it /\
    item_size it = Some (1242, 375)%Z /\
    (item_size it = Some (1232, 368)%Z <-> (1242 = 1232 /\ 375 = 368)%Z).
Proof.
  apply (eval_returns_size_before_crop (Sample.stereo false) Sample.stereo_world 0
           (Sample.image 1242 375) (Sample.image 1242 375)
           (Some (Sample.disparity 1242 375)) "000007.png"%string).
  - reflexivity.
  - apply sample_stereo_load.
Defined.

(** C3 (as stated).  On a stereo pair of 1242 by 375 pixels, the
    evaluation item holds image tensors of 368 rows and 1232 columns, and
    its two trailing integers are [(1242, 375)], not [(1232, 368)]. *)
Theorem eval_size_is_not_crop_size :
  exists it : StereoItem,
    myImageFloder_getitem (Sample.stereo false) Sample.stereo_world 0 = Ok it /\
    has_shape (item_left it) 3 368 1232 /\
    item_size it = Some (1242, 375)%Z /\
    item_size it <> Some (1232, 368)%Z.
Proof.
  rewrite (getitem_eval (Sample.stereo false) Sample.stereo_world 0
             (Sample.image 1242 375) (Sample.image 1242 375)
             (Some (Sample.disparity 1242 375)) "000007.png"%string
             eq_refl (sample_stereo_load false)).
  eexists. split; [reflexivity |]. cbn [item_left item_size]. split; [| split].
  - apply cropped_tensor_shape; reflexivity.
  - reflexivity.
  - discriminate.
Qed.

(** The statement on the sample pair, in training mode. *)
Lemma getitem_fixed_crop_size_witness :
  exists it : StereoItem,
    myImageFloder_getitem (Sample.stereo true) Sample.stereo_world 0 = Ok it /\
    sized it (Some (Sample.disparity 1242 375)) 256 512.
Proof.
  apply (getitem_fixed_crop_size (Sample.stereo true) Sample.stereo_world 0
           (Sample.image 1242 375) (Sample.image 1242 375)
           (Some (Sample.disparity 1242 375)) "000007.png"%string).
  - apply sample_stereo_load.
  - simpl. lia.
  - intros d Hd. injection Hd as <-. simpl. lia.
Defined.

End EvalSize.

(** * Further properties *)

(** ** [angle2class]: wrapping, class centers, no class *)

Section Angle2ClassMore.

Local Open Scope R_scope.

Lemma floor_add_int (x : R) (k : Z) : Exact.floor (x + IZR k) = (Exact.floor x + k)%Z.
Proof.
  apply floor_unique. rewrite plus_IZR.
  destruct (floor_spec x) as [Flo Fhi]. lra.
Qed.

Lemma rem_add_periods (x y : R) (k : Z) :
  0 < y -> Exact.rem (x + IZR k * y) y = Exact.rem x y.
Proof.
  intros Hy. unfold Exact.rem.
  replace ((x + IZR k * y) / y) with (x / y + IZR k) by (field; lra).
  rewrite floor_add_int, plus_IZR. ring.
Qed.

(** The statement of [angle2class_exact_decomposition] at the angle [-1]
    with twelve classes. *)
Lemma angle2class_exact_decomposition_witness :
  exists (class_id : Z) (residual : R),
    angle2class (-1) 12 = Ok (class_id, residual) /\
    (0 <= class_id < 12)%Z /\
    exists k : Z, IZR class_id * (2 * PI / IZR 12) + residual = -1 + IZR k * (2 * PI).
Proof. apply (angle2class_exact_decomposition (-1) 12). lia. Defined.

(** In exact arithmetic [angle2class] only sees the angle modulo a turn:
    adding whole turns to the angle changes neither the class nor the
    residual, whatever the class count. *)
Theorem angle2class_periodic (angle : R) (k : Z) (num_class : Z) :
  angle2class (angle + IZR k * (2 * PI)) num_class = angle2class angle num_class.
Proof.
  unfold angle2class. rewrite two_pi_exact. cbn [frem Exact.exact_float].
  rewrite (rem_add_periods angle (2 * PI) k two_pi_pos). reflexivity.
Qed.

(** In exact arithmetic the class centers are [0, 2pi/N, ..., (N-1) 2pi/N]:
    at the center of class [k] the function returns [k] with residual 0. *)
Theorem angle2class_at_class_center (k N : Z) :
  (0 <= k < N)%Z ->
  angle2class (IZR k * (2 * PI / IZR N)) N = Ok (k, 0).
Proof.
  intros Hk. assert (HN : (1 <= N)%Z) by lia.
  pose proof (bin_width_pos N HN) as Hw.
  pose proof (bin_width_total N HN) as Ht.
  rewrite (angle2class_exact _ N HN). fold (bin_width N).
  assert (Hk0 : 0 <= IZR k) by (apply IZR_le; lia).
  assert (Hk1 : IZR k + 1 <= IZR N).
  { rewrite <- plus_IZR. apply IZR_le. lia. }
  assert (Hc : 0 <= IZR k * bin_width N) by (apply Rmult_le_pos; lra).
  assert (Hc' : IZR k * bin_width N + bin_width N <= 2 * PI).
  { rewrite <- Ht. apply Rmult_le_compat_r with (r := bin_width N) in Hk1; lra. }
  assert (Hs : shifted (IZR k * bin_width N) N = IZR k * bin_width N + bin_width N / 2).
  { unfold shifted. rewrite (rem_small (IZR k * bin_width N)) by lra.
    apply rem_small. lra. }
  rewrite Hs.
  assert (Hf : Exact.floor ((IZR k * bin_width N + bin_width N / 2) / bin_width N) = k).
  { apply floor_unique.
    replace ((IZR k * bin_width N + bin_width N / 2) / bin_width N)
      with (IZR k + 1 / 2) by (field; lra).
    lra. }
  rewrite Hf. do 2 f_equal. lra.
Qed.

Lemma angle2class_at_class_center_witness :
  angle2class (IZR 3 * (2 * PI / IZR 12)) 12 = Ok (3%Z, 0).
Proof. apply (angle2class_at_class_center 3 12). lia. Defined.

(** With no class ([num_class = 0]) the bin width [2 * np.pi / 0.0] cannot
    be computed: in exact arithmetic [angle2class] raises
    [ZeroDivisionError] for every angle. *)
Theorem angle2class_no_class_raises (angle : R) :
  angle2class angle 0 = Raise ZeroDivisionError.
Proof.
  unfold angle2class. rewrite two_pi_exact.
  cbn [fle frem of_literal Exact.exact_float]. rewrite literal_0.
  destruct (rem_bounds angle (2 * PI) two_pi_pos) as [Hlo Hhi].
  rewrite (Rleb_true _ _ Hlo), (Rleb_true _ _ (Rlt_le _ _ Hhi)). cbn [andb negb].
  unfold py_float, py_div. cbn [of_int feq of_literal Exact.exact_float lookup_or bind].
  rewrite literal_0. unfold Exact.Reqb.
  destruct (Req_dec_T 0 0) as [_ | Hne]; [reflexivity | contradiction].
Qed.

End Angle2ClassMore.

(** ** [size2class]: the shapes it accepts *)

Section Size2ClassMore.

(** In any float arithmetic, [size2class] returns a 3-vector when [size] has
    three entries or one (which NumPy broadcasts), and raises [ValueError]
    for every other length. *)
Theorem size2class_shape {F : Type} `{PyFloat F} (size : list F) :
  match size2class size with
  | Ok size_residual =>
      length size_residual = 3%nat /\ (length size = 1%nat \/ length size = 3%nat)
  | Raise e =>
      e = ValueError /\ length size <> 1%nat /\ length size <> 3%nat
  end.
Proof.
  unfold size2class, np_sub, np_elementwise, box_mean.
  destruct size as [| a [| b [| c [| d rest]]]]; simpl.
  - repeat split; discriminate.
  - split; [reflexivity | left; reflexivity].
  - repeat split; discriminate.
  - split; [reflexivity | right; reflexivity].
  - repeat split; discriminate.
Qed.

End Size2ClassMore.

(** ** [rotate_pc_along_y]: composition *)

Section RotationMore.

Local Open Scope R_scope.
Local Open Scope py_scope.

Lemma rotate_row_compose (a b : R) (p : list R) :
  (2 < length p)%nat ->
  rotate_row (cos b) (sin b) (rotate_row (cos a) (sin a) p)
  = rotate_row (cos (a + b)) (sin (a + b)) p.
Proof.
  intros Hp. rewrite cos_plus, sin_plus.
  destruct p as [| x [| y [| z rest]]]; simpl in Hp; try lia.
  unfold rotate_row, at_. simpl.
  f_equal; [| f_equal; f_equal]; ring.
Qed.

(** Rotations compose by adding their angles: rotating an array with at
    least three channels by [a] and then by [b] gives what rotating it by
    [a + b] gives. *)
Theorem rotate_pc_along_y_compose (pc : ndarray) (a b : R) :
  rectangular pc ->
  (2 < ncols pc)%nat ->
  (pc1 <- rotate_pc_along_y pc a ;; rotate_pc_along_y pc1 b)
  = rotate_pc_along_y pc (a + b).
Proof.
  intros Hrect Hc. unfold rectangular in Hrect.
  rewrite (rotate_returns pc a Hc), (rotate_returns pc (a + b) Hc). cbn [bind].
  rewrite rotate_returns by exact Hc. cbn [rows ncols]. do 2 f_equal.
  rewrite map_map. apply map_ext_in. intros p Hin.
  apply rotate_row_compose.
  rewrite Forall_forall in Hrect. rewrite (Hrect p Hin). exact Hc.
Qed.

Lemma rotate_pc_along_y_compose_witness :
  bind (rotate_pc_along_y Sample.two_points (PI / 6))
       (fun pc1 => rotate_pc_along_y pc1 (PI / 3))
  = rotate_pc_along_y Sample.two_points (PI / 6 + PI / 3).
Proof.
  apply (rotate_pc_along_y_compose Sample.two_points (PI / 6) (PI / 3)).
  - apply sample_two_points_rectangular.
  - unfold Sample.two_points. simpl. lia.
Defined.

End RotationMore.

(** ** The augmentation: flipping twice, and the value of the shift *)

Section AugmentMore.

Local Open Scope R_scope.
Local Open Scope py_scope.

Lemma upd_upd (i : nat) (f g : R -> R) (l : list R) :
  upd i g (upd i f l) = upd i (fun x => g (f x)) l.
Proof.
  revert i. induction l as [| x r IH]; intros [| j]; simpl; try reflexivity.
  now rewrite IH.
Qed.

Lemma upd_identity (i : nat) (f : R -> R) (l : list R) :
  (forall x, f x = x) -> upd i f l = l.
Proof.
  intros Hf. revert i. induction l as [| x r IH]; intros [| j]; simpl; try reflexivity.
  - now rewrite Hf.
  - now rewrite IH.
Qed.

Lemma negate_twice (l : list R) :
  upd 0 (fun x => x * -1) (upd 0 (fun x => x * -1) l) = l.
Proof. rewrite upd_upd. apply upd_identity. intros x. ring. Qed.

(** In binary64 the heading is given back only up to rounding:
    [np.pi - (np.pi - 0.1)] is [0.10000000000000009]. *)
Example binary64_heading_flipped_twice :
  fsub np_pi (fsub np_pi 0.1%float) = 0.10000000000000009%float /\
  feq (fsub np_pi (fsub np_pi 0.1%float)) 0.1%float = false.
Proof. vm_compute. split; reflexivity. Qed.

(** In exact arithmetic the flip is its own inverse: applied twice to
    points with at least one channel and a non-empty box center, it gives
    back the points, the box center and the heading.  The coordinates are
    negated twice; the heading [pi - (pi - head)] is [head] over the real
    numbers only ([binary64_heading_flipped_twice]). *)
Theorem flip_twice_is_identity (pts : ndarray) (center : list R) (head : R) :
  (0 < ncols pts)%nat ->
  (0 < length center)%nat ->
  ('(pts', center', head') <- flip pts center head ;; flip pts' center' head')
  = Ok (pts, center, head).
Proof.
  intros Hc Hl. rewrite (flip_returns pts center head Hc Hl). cbn [bind].
  rewrite flip_returns by (cbn [ncols]; rewrite ?upd_length; assumption).
  cbn [ncols rows]. destruct pts as [n rs]. cbn [ncols rows].
  rewrite negate_twice, map_map.
  rewrite (map_ext _ (fun p => p) negate_twice), map_id.
  do 2 f_equal. ring.
Qed.

Lemma flip_twice_is_identity_witness :
  bind (flip Sample.two_points [1; 1.5; 10] 0.25)
       (fun s => let '(pts', center', head') := s in flip pts' center' head')
  = Ok (Sample.two_points, [1; 1.5; 10], 0.25).
Proof.
  apply (flip_twice_is_identity Sample.two_points [1; 1.5; 10] 0.25).
  - unfold Sample.two_points. simpl. lia.
  - simpl. lia.
Defined.

Lemma shift_value_low (w : PointWorld) (center : list R) :
  randn_draw w <= 16 -> shift_value w center = planar_dist center * 0.8.
Proof.
  intros Hg. unfold shift_value, np_clip.
  assert (Hd : 0 <= planar_dist center) by apply sqrt_pos.
  assert (Hle : randn_draw w * planar_dist center * 0.05 <= planar_dist center * 0.8) by nra.
  rewrite (Rmax_right _ _ Hle). apply Rmin_left. lra.
Qed.

(** Unless the Gaussian draw exceeds 16, the clip replaces the perturbation
    by its lower bound: the shift stage adds exactly [0.8 * dist] to the z
    of every point and of the box center, whatever the draw. *)
Theorem shift_is_lower_bound_for_usual_draws
    (self : myPointData) (w : PointWorld) (pts : ndarray) (center : list R) :
  random_shift self = true ->
  randn_draw w <= 16 ->
  rectangular pts ->
  (2 < ncols pts)%nat ->
  length center = 3%nat ->
  exists (pts' : ndarray) (center' : list R),
    shift_stage self w pts center = Ok (pts', center') /\
    Forall2 (fun p p' =>
               at_ p' 2 = at_ p 2 + sqrt (at_ center 0 ^ 2 + at_ center 1 ^ 2) * 0.8)
            (rows pts) (rows pts') /\
    at_ center' 2 = at_ center 2 + sqrt (at_ center 0 ^ 2 + at_ center 1 ^ 2) * 0.8.
Proof.
  intros Hshift Hg Hrect Hc Hl.
  unfold shift_stage. rewrite Hshift. rewrite shift_returns by lia.
  rewrite (shift_value_low w center Hg). unfold planar_dist.
  eexists. eexists. split; [reflexivity |]. cbn [rows]. split.
  - apply Forall2_map_right with (Q := fun p => length p = ncols pts).
    + intros p Hp. apply at_upd_same. lia.
    + exact Hrect.
  - apply at_upd_same. lia.
Qed.

Lemma shift_is_lower_bound_for_usual_draws_witness :
  exists (pts' : ndarray) (center' : list R),
    shift_stage Sample.dataset (Sample.world (Sample.record Sample.two_points [1; 0]%Z))
                Sample.two_points [3; 4; 10]
    = Ok (pts', center') /\
    Forall2 (fun p p' =>
               at_ p' 2 = at_ p 2 + sqrt (at_ [3; 4; 10] 0 ^ 2 + at_ [3; 4; 10] 1 ^ 2) * 0.8)
            (rows Sample.two_points) (rows pts') /\
    at_ center' 2 = at_ [3; 4; 10] 2 + sqrt (at_ [3; 4; 10] 0 ^ 2 + at_ [3; 4; 10] 1 ^ 2) * 0.8.
Proof.
  apply (shift_is_lower_bound_for_usual_draws Sample.dataset
           (Sample.world (Sample.record Sample.two_points [1; 0]%Z))
           Sample.two_points [3; 4; 10]).
  - reflexivity.
  - unfold Sample.world. simpl. lra.
  - apply sample_two_points_rectangular.
  - unfold Sample.two_points. simpl. lia.
  - reflexivity.
Defined.

End AugmentMore.

(** ** [myPointData.__getitem__]: what the item holds *)

Section PointItemFacts.

Local Open Scope R_scope.
Local Open Scope py_scope.






End PointItemFacts.

(** ** Indices, missing keys and names *)

Section PointAccessFacts.

Local Open Scope R_scope.
Local Open Scope py_scope.


(** The statement of [without_flip_x_and_heading_kept] on the sample cloud,
    for a dataset with the flip turned off. *)
Lemma without_flip_x_and_heading_kept_witness :
  exists (pts' : ndarray) (center' : list R),
    augment (myPointData_init "frustum/" ["000007.npy"%string] 3 12 false true false)
            (Sample.world (Sample.record Sample.two_points [1; 0]%Z))
            Sample.two_points [1; 1.5; 10] 0.25
    = Ok (pts', center', 0.25) /\
    Forall2 (fun p p' => at_ p' 0 = at_ p 0) (rows Sample.two_points) (rows pts') /\
    at_ center' 0 = at_ [1; 1.5; 10] 0.
Proof.
  apply (without_flip_x_and_heading_kept
           (myPointData_init "frustum/" ["000007.npy"%string] 3 12 false true false)
           (Sample.world (Sample.record Sample.two_points [1; 0]%Z))
           Sample.two_points [1; 1.5; 10] 0.25).
  - left. reflexivity.
  - apply sample_two_points_rectangular.
  - unfold Sample.two_points. simpl. lia.
  - reflexivity.
Defined.

Lemma list_getitem_out_of_range {A : Type} (l : list A) (index : Z) :
  (index < - Z.of_nat (length l) \/ Z.of_nat (length l) <= index)%Z ->
  list_getitem l index = Raise IndexError.
Proof.
  intros Hout. unfold list_getitem.
  destruct (0 <=? index)%Z eqn:Hpos.
  - apply Z.leb_le in Hpos.
    assert (Hnone : nth_error l (Z.to_nat index) = None) by (apply nth_error_None; lia).
    rewrite Hnone. reflexivity.
  - apply Z.leb_gt in Hpos.
    assert (Hlow : (- Z.of_nat (length l) <=? index)%Z = false) by (apply Z.leb_gt; lia).
    rewrite Hlow. reflexivity.
Qed.

Lemma list_getitem_from_end {A : Type} (l : list A) (k : Z) :
  (1 <= k <= Z.of_nat (length l))%Z ->
  list_getitem l (- k) = list_getitem l (Z.of_nat (length l) - k).
Proof.
  intros Hk. unfold list_getitem.
  assert (H1 : (0 <=? - k)%Z = false) by (apply Z.leb_gt; lia).
  assert (H2 : (- Z.of_nat (length l) <=? - k)%Z = true) by (apply Z.leb_le; lia).
  assert (H3 : (0 <=? Z.of_nat (length l) - k)%Z = true) by (apply Z.leb_le; lia).
  rewrite H1, H2, H3.
  replace (Z.of_nat (length l) + - k)%Z with (Z.of_nat (length l) - k)%Z by lia.
  reflexivity.
Qed.

(** An index at or past [len(self)], or below [-len(self)], raises
    [IndexError] before anything is loaded. *)
Theorem point_getitem_index_out_of_range
    (self : myPointData) (w : PointWorld) (index : Z) :
  (index < - Z.of_nat (myPointData_len self)
   \/ Z.of_nat (myPointData_len self) <= index)%Z ->
  myPointData_getitem self w index = Raise IndexError.
Proof.
  intros Hout. unfold myPointData_getitem, myPointData_len in *.
  rewrite (list_getitem_out_of_range (points self) index Hout). reflexivity.
Qed.

Lemma point_getitem_index_out_of_range_witness :
  myPointData_getitem Sample.dataset
    (Sample.world (Sample.record Sample.two_points [1; 0]%Z)) 1
  = Raise IndexError.
Proof.
  apply (point_getitem_index_out_of_range Sample.dataset
           (Sample.world (Sample.record Sample.two_points [1; 0]%Z)) 1).
  right. unfold myPointData_len, Sample.dataset. simpl. lia.
Defined.

(** A negative index counts from the end: item [-k] is item [len(self) - k],
    for [1 <= k <= len(self)]. *)
Theorem point_getitem_negative_index
    (self : myPointData) (w : PointWorld) (k : Z) :
  (1 <= k <= Z.of_nat (myPointData_len self))%Z ->
  myPointData_getitem self w (- k)
  = myPointData_getitem self w (Z.of_nat (myPointData_len self) - k).
Proof.
  intros Hk. unfold myPointData_getitem, myPointData_len in *.
  rewrite (list_getitem_from_end (points self) k Hk). reflexivity.
Qed.

Lemma point_getitem_negative_index_witness :
  myPointData_getitem Sample.dataset
    (Sample.world (Sample.record Sample.two_points [1; 0]%Z)) (- 1)
  = myPointData_getitem Sample.dataset
      (Sample.world (Sample.record Sample.two_points [1; 0]%Z))
      (Z.of_nat (myPointData_len Sample.dataset) - 1).
Proof.
  apply (point_getitem_negative_index Sample.dataset
           (Sample.world (Sample.record Sample.two_points [1; 0]%Z)) 1).
  unfold myPointData_len, Sample.dataset. simpl. lia.
Defined.

(** A stored record that lacks the image id, the frustum angle, or the
    points or the labels of the selected frame makes [__getitem__] raise
    [KeyError]; the keys of the other frame are not looked at. *)
Theorem point_getitem_missing_key
    (self : myPointData) (w : PointWorld) (index : Z) (path : string) (d : Datas) :
  list_getitem (points self) index = Ok path ->
  stored w path = Some d ->
  img_id d = None \/ frustum_angle d = None
  \/ cloud self d = None \/ cloud_labels self d = None ->
  myPointData_getitem self w index = Raise KeyError.
Proof.
  intros Hpath Hstored Hmiss.
  unfold myPointData_getitem. rewrite Hpath. cbn [bind].
  unfold point_loader. rewrite Hstored. cbn [lookup_or bind]. unfold key.
  destruct (img_id d) as [id |]; cbn [lookup_or bind]; [| reflexivity].
  destruct (frustum_angle d) as [fr |]; cbn [lookup_or bind]; [| reflexivity].
  unfold cloud, cloud_labels in Hmiss.
  destruct Hmiss as [Hm | [Hm | [Hm | Hm]]]; try discriminate;
    destruct (lidar self); rewrite Hm; cbn [lookup_or bind];
    try reflexivity;
    match goal with
    | |- context [lookup_or KeyError ?o] => destruct o; reflexivity
    end.
Qed.

Lemma point_getitem_missing_key_witness :
  myPointData_getitem
    (myPointData_init "frustum/" ["000007.npy"%string] 3 12 false false true)
    (Sample.world (Sample.record Sample.two_points [1; 0]%Z)) 0
  = Raise KeyError.
Proof.
  apply (point_getitem_missing_key
           (myPointData_init "frustum/" ["000007.npy"%string] 3 12 false false true)
           (Sample.world (Sample.record Sample.two_points [1; 0]%Z)) 0
           "frustum/000007.npy" (Sample.record Sample.two_points [1; 0]%Z)).
  - reflexivity.
  - reflexivity.
  - right. right. left. reflexivity.
Defined.

End PointAccessFacts.

(** ** [myPointData.__init__] and the name of an item *)

Section PointNameFacts.

Local Open Scope py_scope.

Lemma append_step (a : string) (c : ascii) (b : string) :
  ((a ++ String c EmptyString) ++ b)%string = (a ++ String c b)%string.
Proof. induction a as [| x a IH]; simpl; [reflexivity | now rewrite IH]. Qed.







End PointNameFacts.

(** ** Entries of tensors and arrays *)

Section EntryFacts.

Local Open Scope R_scope.

Lemma nth_map_in {A B : Type} (f : A -> B) (l : list A) (i : nat) (da : A) (db : B) :
  (i < length l)%nat -> nth i (map f l) db = f (nth i l da).
Proof.
  intros Hi. rewrite (nth_indep (map f l) db (f da)) by (rewrite length_map; exact Hi).
  apply map_nth.
Qed.

Lemma nth_zrange (n : Z) (i : nat) (d : Z) :
  (i < Z.to_nat n)%nat -> nth i (zrange n) d = Z.of_nat i.
Proof.
  intros Hi. unfold zrange.
  rewrite (nth_map_in Z.of_nat (seq 0 (Z.to_nat n)) i 0%nat d)
    by (rewrite length_seq; exact Hi).
  rewrite seq_nth by exact Hi. reflexivity.
Qed.

(** [ToTensor] puts the pixel [(x, y)] of channel [c] at [[c, y, x]]. *)
Lemma to_tensor_entry (img : Image RGB) (c y x : nat) :
  (c < 3)%nat -> (y < Z.to_nat (height img))%nat -> (x < Z.to_nat (width img))%nat ->
  tensor_entry (to_tensor img) c y x
  = IZR (channel c (pixel img (Z.of_nat x) (Z.of_nat y))) / 255.
Proof.
  intros Hc Hy Hx. unfold tensor_entry, to_tensor.
  rewrite (nth_map_in _ (seq 0 3) c 0%nat) by (rewrite length_seq; exact Hc).
  rewrite seq_nth by exact Hc.
  rewrite (nth_map_in _ (zrange (height img)) y 0%Z) by (rewrite zrange_length; exact Hy).
  rewrite (nth_map_in _ (zrange (width img)) x 0%Z) by (rewrite zrange_length; exact Hx).
  rewrite !nth_zrange by assumption. reflexivity.
Qed.

Lemma normalize_entry (mean std : list R) (t : Tensor) (h w : nat) (c y x : nat) :
  length mean = 3%nat ->
  length std = 3%nat ->
  has_shape t 3 h w ->
  (c < 3)%nat -> (y < h)%nat -> (x < w)%nat ->
  tensor_entry (normalize mean std t) c y x
  = (tensor_entry t c y x - nth c mean 0) / nth c std 0.
Proof.
  intros Hm Hs [Hlen Hch] Hc Hy Hx. unfold tensor_entry, normalize.
  rewrite (nth_map_in _ (combine t (combine mean std)) c ([], (0, 0)))
    by (rewrite !length_combine, Hlen, Hm, Hs; exact Hc).
  rewrite combine_nth by (rewrite length_combine, Hlen, Hm, Hs; reflexivity).
  rewrite combine_nth by (rewrite Hm, Hs; reflexivity).
  rewrite Forall_forall in Hch.
  destruct (Hch (nth c t []) (nth_In t [] (eq_ind_r (fun n => (c < n)%nat) Hc Hlen)))
    as [Hh Hrows].
  rewrite (nth_map_in _ (nth c t []) y []) by (rewrite Hh; exact Hy).
  rewrite Forall_forall in Hrows.
  assert (Hrow : length (nth y (nth c t []) []) = w).
  { apply Hrows. apply nth_In. rewrite Hh. exact Hy. }
  rewrite (nth_map_in _ (nth y (nth c t []) []) x 0) by (rewrite Hrow; exact Hx).
  reflexivity.
Qed.

Lemma get_transform_entry (img : Image RGB) (c y x : nat) :
  (c < 3)%nat -> (y < Z.to_nat (height img))%nat -> (x < Z.to_nat (width img))%nat ->
  tensor_entry (get_transform img) c y x
  = (IZR (channel c (pixel img (Z.of_nat x) (Z.of_nat y))) / 255
     - nth c imagenet_mean 0)
    / nth c imagenet_std 0.
Proof.
  intros Hc Hy Hx. unfold get_transform, scale_crop. cbn [fst snd].
  rewrite (normalize_entry imagenet_mean imagenet_std (to_tensor img)
             (Z.to_nat (height img)) (Z.to_nat (width img)) c y x
             eq_refl eq_refl (to_tensor_shape img) Hc Hy Hx).
  rewrite (to_tensor_entry img c y x Hc Hy Hx). reflexivity.
Qed.

(** [get_transform()] turns an image of size [(w, h)] into a tensor of
    shape [(3, h, w)] whose entry [[c, y, x]] is channel [c] of the pixel
    [(x, y)], scaled to [[0, 1]], minus the channel's mean, over the
    channel's standard deviation (the ImageNet statistics). *)
Theorem get_transform_normalizes (img : Image RGB) :
  has_shape (get_transform img) 3 (Z.to_nat (height img)) (Z.to_nat (width img)) /\
  forall c y x : nat,
    (c < 3)%nat -> (y < Z.to_nat (height img))%nat -> (x < Z.to_nat (width img))%nat ->
    tensor_entry (get_transform img) c y x
    = (IZR (channel c (pixel img (Z.of_nat x) (Z.of_nat y))) / 255
       - nth c [0.485; 0.456; 0.406] 0)
      / nth c [0.229; 0.224; 0.225] 0.
Proof.
  split; [apply get_transform_shape |].
  intros c y x Hc Hy Hx. apply (get_transform_entry img c y x Hc Hy Hx).
Qed.

Lemma ascontiguousarray_entry (img : Image Z) (r c : nat) :
  (r < Z.to_nat (height img))%nat -> (c < Z.to_nat (width img))%nat ->
  array_entry (ascontiguousarray img) r c = IZR (pixel img (Z.of_nat c) (Z.of_nat r)).
Proof.
  intros Hr Hc. unfold array_entry, ascontiguousarray. cbn [rows].
  rewrite (nth_map_in _ (zrange (height img)) r 0%Z) by (rewrite zrange_length; exact Hr).
  rewrite (nth_map_in _ (zrange (width img)) c 0%Z) by (rewrite zrange_length; exact Hc).
  rewrite !nth_zrange by assumption. reflexivity.
Qed.

Lemma array_div_entry (a : ndarray) (d : R) (h w : nat) (r c : nat) :
  array_shape a h w -> (r < h)%nat -> (c < w)%nat ->
  array_entry (array_div a d) r c = array_entry a r c / d.
Proof.
  intros (Hh & Hw & Hrect) Hr Hc. unfold array_entry, array_div, nrows, rectangular in *.
  cbn [rows].
  rewrite (nth_map_in _ (rows a) r []) by (rewrite Hh; exact Hr).
  rewrite Forall_forall in Hrect.
  assert (Hrow : length (nth r (rows a) []) = w).
  { rewrite <- Hw. apply Hrect. apply nth_In. rewrite Hh. exact Hr. }
  rewrite (nth_map_in _ (nth r (rows a) []) c 0) by (rewrite Hrow; exact Hc).
  reflexivity.
Qed.

Lemma py_slice_nth {A : Type} (l : list A) (i j : Z) (k : nat) (d : A) :
  (0 <= i <= j)%Z ->
  (j <= Z.of_nat (length l))%Z ->
  (k < Z.to_nat (j - i))%nat ->
  nth k (py_slice l i j) d = nth (Z.to_nat i + k) l d.
Proof.
  intros Hij Hj Hk. unfold py_slice.
  rewrite !slice_bound_inside by lia.
  rewrite nth_firstn.
  assert (Hlt : (k <? Z.to_nat (j - i))%nat = true) by (apply Nat.ltb_lt; exact Hk).
  rewrite Hlt. apply nth_skipn.
Qed.

Lemma array_slice_entry (a : ndarray) (h w : nat) (i0 i1 j0 j1 : Z) (r c : nat) :
  array_shape a h w ->
  (0 <= i0 <= i1)%Z -> (i1 <= Z.of_nat h)%Z ->
  (0 <= j0 <= j1)%Z -> (j1 <= Z.of_nat w)%Z ->
  (r < Z.to_nat (i1 - i0))%nat -> (c < Z.to_nat (j1 - j0))%nat ->
  array_entry (array_slice a i0 i1 j0 j1) r c
  = array_entry a (Z.to_nat i0 + r) (Z.to_nat j0 + c).
Proof.
  intros (Hh & Hw & Hrect) Hi0 Hi1 Hj0 Hj1 Hr Hc.
  unfold array_entry, array_slice, nrows, rectangular in *. cbn [rows].
  rewrite (nth_map_in _ (py_slice (rows a) i0 i1) r [])
    by (rewrite py_slice_length by (rewrite ?Hh; lia); exact Hr).
  rewrite (py_slice_nth (rows a) i0 i1 r []) by (rewrite ?Hh; lia).
  rewrite Forall_forall in Hrect.
  assert (Hrow : length (nth (Z.to_nat i0 + r) (rows a) []) = w).
  { rewrite <- Hw. apply Hrect. apply nth_In. rewrite Hh. lia. }
  apply py_slice_nth; rewrite ?Hrow; lia.
Qed.

End EntryFacts.

(** ** [myImageFloder.__getitem__]: sizes it refuses and accepts, modes *)

Section StereoMore.

Local Open Scope py_scope.

Lemma randint_empty (raw a b : Z) : (b < a)%Z -> randint raw a b = Raise ValueError.
Proof.
  intros Hba. unfold randint.
  assert (Hlt : (b <? a)%Z = true) by (apply Z.ltb_lt; exact Hba).
  rewrite Hlt. reflexivity.
Qed.

(** In training mode an image narrower than 512 or lower than 256 pixels
    leaves [random.randint] an empty range: [__getitem__] raises
    [ValueError]. *)
Theorem training_image_too_small_raises
    (self : myImageFloder) (wd : StereoWorld) (index : Z)
    (limg rimg : Image RGB) (dataL : option (Image Z)) (nm : string) :
  training self = true ->
  stereo_load self index = Ok (limg, rimg, dataL, nm) ->
  (width limg < 512 \/ height limg < 256)%Z ->
  myImageFloder_getitem self wd index = Raise ValueError.
Proof.
  intros Htr Hload Hsmall. unfold myImageFloder_getitem.
  rewrite Hload. cbn [bind]. rewrite Htr. cbv zeta.
  destruct (Z_lt_le_dec (width limg) 512) as [Hw | Hw].
  - rewrite randint_empty by lia. reflexivity.
  - destruct (randint_returns (randint_raw_x wd) 0 (width limg - 512)) as (x1 & Hx & _);
      [lia |].
    rewrite Hx. cbn [bind]. rewrite randint_empty by lia. reflexivity.
Qed.

Lemma training_image_too_small_raises_witness :
  myImageFloder_getitem
    {| left := ["l.png"%string]; right := ["r.png"%string]; disp_L := ["d.png"%string];
       loader := fun _ => Ok (Sample.image 500 375);
       dploader := fun _ => Ok (Sample.disparity 500 375);
       training := true; name := ["000007.png"%string]; load := false |}
    Sample.stereo_world 0
  = Raise ValueError.
Proof.
  apply (training_image_too_small_raises
           {| left := ["l.png"%string]; right := ["r.png"%string];
              disp_L := ["d.png"%string];
              loader := fun _ => Ok (Sample.image 500 375);
              dploader := fun _ => Ok (Sample.disparity 500 375);
              training := true; name := ["000007.png"%string]; load := false |}
           Sample.stereo_world 0
           (Sample.image 500 375) (Sample.image 500 375)
           (Some (Sample.disparity 500 375)) "000007.png"%string).
  - reflexivity.
  - reflexivity.
  - left. simpl. lia.
Defined.

(** In evaluation mode no size is refused: whatever the size of the loaded
    images, [__getitem__] returns image tensors, and a disparity map when
    one is loaded, of 368 rows and 1232 columns (PIL's crop fills what lies
    outside the image). *)
Theorem eval_accepts_any_size
    (self : myImageFloder) (wd : StereoWorld) (index : Z)
    (limg rimg : Image RGB) (dataL : option (Image Z)) (nm : string) :
  training self = false ->
  stereo_load self index = Ok (limg, rimg, dataL, nm) ->
  exists it : StereoItem,
    myImageFloder_getitem self wd index = Ok it /\
    sized it dataL 368 1232.
Proof.
  intros Htr Hload.
  rewrite (getitem_eval self wd index limg rimg dataL nm Htr Hload).
  eexists. split; [reflexivity |].
  unfold sized. cbn [item_left item_right item_disparity].
  split; [| split].
  - apply cropped_tensor_shape; lia.
  - apply cropped_tensor_shape; lia.
  - destruct dataL as [d |]; [| exact I].
    apply array_div_shape, cropped_array_shape; lia.
Qed.

Lemma eval_accepts_any_size_witness :
  exists it : StereoItem,
    myImageFloder_getitem
      {| left := ["l.png"%string]; right := ["r.png"%string]; disp_L := ["d.png"%string];
         loader := fun _ => Ok (Sample.image 500 375);
         dploader := fun _ => Ok (Sample.disparity 500 375);
         training := false; name := ["000007.png"%string]; load := false |}
      Sample.stereo_world 0
    = Ok it /\
    sized it (Some (Sample.disparity 500 375)) 368 1232.
Proof.
  apply (eval_accepts_any_size
           {| left := ["l.png"%string]; right := ["r.png"%string];
              disp_L := ["d.png"%string];
              loader := fun _ => Ok (Sample.image 500 375);
              dploader := fun _ => Ok (Sample.disparity 500 375);
              training := false; name := ["000007.png"%string]; load := false |}
           Sample.stereo_world 0
           (Sample.image 500 375) (Sample.image 500 375)
           (Some (Sample.disparity 500 375)) "000007.png"%string).
  - reflexivity.
  - reflexivity.
Defined.

(** An index at or past [len(self)] (the number of left images), or below
    its opposite, raises [IndexError] before any file is read. *)
Theorem stereo_getitem_index_out_of_range
    (self : myImageFloder) (wd : StereoWorld) (index : Z) :
  (index < - Z.of_nat (myImageFloder_len self)
   \/ Z.of_nat (myImageFloder_len self) <= index)%Z ->
  myImageFloder_getitem self wd index = Raise IndexError.
Proof.
  intros Hout. unfold myImageFloder_getitem, stereo_load, myImageFloder_len in *.
  rewrite (list_getitem_out_of_range (left self) index Hout). reflexivity.
Qed.

Lemma stereo_getitem_index_out_of_range_witness :
  myImageFloder_getitem (Sample.stereo true) Sample.stereo_world 1 = Raise IndexError.
Proof.
  apply (stereo_getitem_index_out_of_range (Sample.stereo true) Sample.stereo_world 1).
  right. unfold myImageFloder_len, Sample.stereo. simpl. lia.
Defined.

Lemma stereo_load_without_disparity
    (self : myImageFloder) (index : Z)
    (limg rimg : Image RGB) (dataL : option (Image Z)) (nm : string) :
  load self = true ->
  stereo_load self index = Ok (limg, rimg, dataL, nm) ->
  dataL = None.
Proof.
  intros Hload. unfold stereo_load. rewrite Hload. cbn [negb].
  repeat match goal with
         | |- bind ?m _ = _ -> _ => destruct m; cbn [bind]; [| discriminate]
         end.
  intros Heq. injection Heq as _ _ <- _. reflexivity.
Qed.

(** With [load] set, the disparity files are never read: the item does not
    depend on the disparity paths or on the disparity loader, and the
    disparity it holds is the integer [0]. *)
Theorem load_mode_reads_no_disparity
    (self other : myImageFloder) (wd : StereoWorld) (index : Z) :
  load self = true ->
  load other = true ->
  left other = left self ->
  right other = right self ->
  name other = name self ->
  loader other = loader self ->
  training other = training self ->
  myImageFloder_getitem other wd index = myImageFloder_getitem self wd index /\
  match myImageFloder_getitem self wd index with
  | Ok it => item_disparity it = DispZero
  | Raise _ => True
  end.
Proof.
  intros Hload Hload' Hl Hr Hn Hlo Htr.
  assert (Hsame : stereo_load other index = stereo_load self index).
  { unfold stereo_load. rewrite Hload, Hload', Hl, Hr, Hn, Hlo. reflexivity. }
  split.
  - unfold myImageFloder_getitem. rewrite Hsame, Htr. reflexivity.
  - unfold myImageFloder_getitem.
    destruct (stereo_load self index) as [[[[limg rimg] dataL] nm] | e] eqn:Hres;
      cbn [bind]; [| exact I].
    rewrite (stereo_load_without_disparity self index limg rimg dataL nm Hload Hres).
    destruct (training self); cbv zeta;
      repeat match goal with
             | |- match bind ?m _ with _ => _ end =>
                 destruct m; cbn [bind]; [| exact I]
             end;
      reflexivity.
Qed.

Lemma load_mode_reads_no_disparity_witness :
  myImageFloder_getitem
    {| left := ["image_2/000007.png"%string]; right := ["image_3/000007.png"%string];
       disp_L := []; loader := default_loader Sample.stereo_world;
       dploader := fun _ => Raise IOError;
       training := false; name := ["000007.png"%string]; load := true |}
    Sample.stereo_world 0
  = myImageFloder_getitem
      {| left := ["image_2/000007.png"%string]; right := ["image_3/000007.png"%string];
         disp_L := ["disp_occ_0/000007.png"%string];
         loader := default_loader Sample.stereo_world;
         dploader := disparity_loader Sample.stereo_world;
         training := false; name := ["000007.png"%string]; load := true |}
      Sample.stereo_world 0 /\
  match myImageFloder_getitem
          {| left := ["image_2/000007.png"%string]; right := ["image_3/000007.png"%string];
             disp_L := ["disp_occ_0/000007.png"%string];
             loader := default_loader Sample.stereo_world;
             dploader := disparity_loader Sample.stereo_world;
             training := false; name := ["000007.png"%string]; load := true |}
          Sample.stereo_world 0 with
  | Ok it => item_disparity it = DispZero
  | Raise _ => True
  end.
Proof.
  apply (load_mode_reads_no_disparity
           {| left := ["image_2/000007.png"%string]; right := ["image_3/000007.png"%string];
              disp_L := ["disp_occ_0/000007.png"%string];
              loader := default_loader Sample.stereo_world;
              dploader := disparity_loader Sample.stereo_world;
              training := false; name := ["000007.png"%string]; load := true |}
           {| left := ["image_2/000007.png"%string]; right := ["image_3/000007.png"%string];
              disp_L := []; loader := default_loader Sample.stereo_world;
              dploader := fun _ => Raise IOError;
              training := false; name := ["000007.png"%string]; load := true |}
           Sample.stereo_world 0); reflexivity.
Defined.

End StereoMore.

(** ** [myImageFloder.__getitem__]: the pixels behind the entries *)

Section StereoEntries.

Local Open Scope R_scope.
Local Open Scope py_scope.

(** Inside the source image, the cropped image holds the source's pixels. *)
Lemma cropped_pixel {P : Type} (fill : P) (img : Image P) (l u r b x y : Z) :
  (0 <= x + l < width img)%Z ->
  (0 <= y + u < height img)%Z ->
  pixel (crop_region fill img (l, u, r, b)) x y = pixel img (x + l) (y + u).
Proof.
  intros Hx Hy. cbn [crop_region pixel].
  assert (H1 : (0 <=? x + l)%Z = true) by (apply Z.leb_le; lia).
  assert (H2 : (x + l <? width img)%Z = true) by (apply Z.ltb_lt; lia).
  assert (H3 : (0 <=? y + u)%Z = true) by (apply Z.leb_le; lia).
  assert (H4 : (y + u <? height img)%Z = true) by (apply Z.ltb_lt; lia).
  rewrite H1, H2, H3, H4. reflexivity.
Qed.

Lemma cropped_tensor_entry (img : Image RGB) (l u : Z) (w h c y x : nat) :
  (0 <= l)%Z -> (l + Z.of_nat w <= width img)%Z ->
  (0 <= u)%Z -> (u + Z.of_nat h <= height img)%Z ->
  (c < 3)%nat -> (y < h)%nat -> (x < w)%nat ->
  tensor_entry
    (get_transform (crop_region (0, 0, 0)%Z img (l, u, l + Z.of_nat w, u + Z.of_nat h)%Z))
    c y x
  = (IZR (channel c (pixel img (Z.of_nat x + l) (Z.of_nat y + u))) / 255
     - nth c imagenet_mean 0)
    / nth c imagenet_std 0.
Proof.
  intros Hl Hlw Hu Huh Hc Hy Hx.
  rewrite get_transform_entry;
    [| exact Hc | cbn [crop_region height]; lia | cbn [crop_region width]; lia].
  rewrite cropped_pixel by lia. reflexivity.
Qed.

(** In training mode one window of 512 by 256 pixels, inside the left
    image, is cut from the left image, the right image and the disparity
    image alike: entry [(y, x)] of each result comes from the pixel
    [(x1 + x, y1 + y)] of its source, the images normalized and the
    disparity divided by 256. *)
Theorem training_window_is_shared
    (self : myImageFloder) (wd : StereoWorld) (index : Z)
    (limg rimg : Image RGB) (d : Image Z) (nm : string) :
  training self = true ->
  stereo_load self index = Ok (limg, rimg, Some d, nm) ->
  (512 <= width limg /\ 256 <= height limg)%Z ->
  (width limg <= width rimg /\ height limg <= height rimg)%Z ->
  (width limg <= width d /\ height limg <= height d)%Z ->
  exists (x1 y1 : Z) (l r : Tensor) (a : ndarray),
    (0 <= x1 <= width limg - 512)%Z /\
    (0 <= y1 <= height limg - 256)%Z /\
    myImageFloder_getitem self wd index = Ok (TrainItem l r (DispArray a) nm) /\
    forall y x : nat,
      (y < 256)%nat -> (x < 512)%nat ->
      array_entry a y x = IZR (pixel d (x1 + Z.of_nat x) (y1 + Z.of_nat y)) / 256 /\
      forall c : nat,
        (c < 3)%nat ->
        tensor_entry l c y x
        = (IZR (channel c (pixel limg (x1 + Z.of_nat x) (y1 + Z.of_nat y))) / 255
           - nth c [0.485; 0.456; 0.406] 0) / nth c [0.229; 0.224; 0.225] 0 /\
        tensor_entry r c y x
        = (IZR (channel c (pixel rimg (x1 + Z.of_nat x) (y1 + Z.of_nat y))) / 255
           - nth c [0.485; 0.456; 0.406] 0) / nth c [0.229; 0.224; 0.225] 0.
Proof.
  intros Htr Hload [Hw Hh] [Hrw Hrh] [Hdw Hdh].
  destruct (getitem_train self wd index limg rimg (Some d) nm Htr Hload Hw Hh)
    as (x1 & y1 & Hx1 & Hy1 & Hget).
  exists x1, y1. eexists. eexists. eexists.
  split; [exact Hx1 |]. split; [exact Hy1 |]. split; [exact Hget |].
  intros y x Hy Hx. split.
  - pose proof (array_div_shape _ 256 _ _ (ascontiguousarray_shape d)) as Hs.
    rewrite (array_slice_entry _ _ _ y1 (y1 + 256) x1 (x1 + 512) y x Hs) by lia.
    rewrite (array_div_entry _ 256 _ _ _ _ (ascontiguousarray_shape d)) by lia.
    rewrite ascontiguousarray_entry by lia.
    replace (Z.of_nat (Z.to_nat x1 + x)) with (x1 + Z.of_nat x)%Z by lia.
    replace (Z.of_nat (Z.to_nat y1 + y)) with (y1 + Z.of_nat y)%Z by lia.
    reflexivity.
  - intros c Hc.
    replace (x1 + Z.of_nat x)%Z with (Z.of_nat x + x1)%Z by lia.
    replace (y1 + Z.of_nat y)%Z with (Z.of_nat y + y1)%Z by lia.
    split.
    + apply (cropped_tensor_entry limg x1 y1 512 256 c y x); try assumption; lia.
    + apply (cropped_tensor_entry rimg x1 y1 512 256 c y x); try assumption; lia.
Qed.

(** The statement on the sample pair of 1242 by 375 pixels. *)
Lemma training_window_is_shared_witness :
  exists (x1 y1 : Z) (l r : Tensor) (a : ndarray),
    (0 <= x1 <= 1242 - 512)%Z /\
    (0 <= y1 <= 375 - 256)%Z /\
    myImageFloder_getitem (Sample.stereo true) Sample.stereo_world 0
    = Ok (TrainItem l r (DispArray a) "000007.png"%string) /\
    forall y x : nat,
      (y < 256)%nat -> (x < 512)%nat ->
      array_entry a y x
      = IZR (pixel (Sample.disparity 1242 375) (x1 + Z.of_nat x) (y1 + Z.of_nat y)) / 256 /\
      forall c : nat,
        (c < 3)%nat ->
        tensor_entry l c y x
        = (IZR (channel c (pixel (Sample.image 1242 375)
                                 (x1 + Z.of_nat x) (y1 + Z.of_nat y))) / 255
           - nth c [0.485; 0.456; 0.406] 0) / nth c [0.229; 0.224; 0.225] 0 /\
        tensor_entry r c y x
        = (IZR (channel c (pixel (Sample.image 1242 375)
                                 (x1 + Z.of_nat x) (y1 + Z.of_nat y))) / 255
           - nth c [0.485; 0.456; 0.406] 0) / nth c [0.229; 0.224; 0.225] 0.
Proof.
  apply (training_window_is_shared (Sample.stereo true) Sample.stereo_world 0
           (Sample.image 1242 375) (Sample.image 1242 375)
           (Sample.disparity 1242 375) "000007.png"%string).
  - reflexivity.
  - apply sample_stereo_load.
  - simpl. lia.
  - simpl. lia.
  - simpl. lia.
Defined.

(** In evaluation mode the disparity map holds the raw disparity pixels of
    the bottom-right window of 1232 by 368 pixels, each divided by 256. *)
Theorem eval_disparity_is_raw_over_256
    (self : myImageFloder) (wd : StereoWorld) (index : Z)
    (limg rimg : Image RGB) (d : Image Z) (nm : string) :
  training self = false ->
  stereo_load self index = Ok (limg, rimg, Some d, nm) ->
  (1232 <= width limg /\ 368 <= height limg)%Z ->
  (width limg <= width d /\ height limg <= height d)%Z ->
  exists (l r : Tensor) (a : ndarray),
    myImageFloder_getitem self wd index
    = Ok (EvalItem l r (DispArray a) nm (width limg) (height limg)) /\
    forall y x : nat,
      (y < 368)%nat -> (x < 1232)%nat ->
      array_entry a y x
      = IZR (pixel d (width limg - 1232 + Z.of_nat x) (height limg - 368 + Z.of_nat y))
        / 256.
Proof.
  intros Htr Hload [Hw Hh] [Hdw Hdh].
  rewrite (getitem_eval self wd index limg rimg (Some d) nm Htr Hload).
  eexists. eexists. eexists. split; [reflexivity |].
  intros y x Hy Hx.
  rewrite (array_div_entry _ 256 368 1232) by
    (try apply cropped_array_shape; lia).
  rewrite ascontiguousarray_entry by (cbn [crop_region width height]; lia).
  rewrite cropped_pixel by lia.
  replace (Z.of_nat x + (width limg - 1232))%Z
    with (width limg - 1232 + Z.of_nat x)%Z by lia.
  replace (Z.of_nat y + (height limg - 368))%Z
    with (height limg - 368 + Z.of_nat y)%Z by lia.
  reflexivity.
Qed.

(** The statement on the sample pair of 1242 by 375 pixels. *)
Lemma eval_disparity_is_raw_over_256_witness :
  exists (l r : Tensor) (a : ndarray),
    myImageFloder_getitem (Sample.stereo false) Sample.stereo_world 0
    = Ok (EvalItem l r (DispArray a) "000007.png"%string 1242 375) /\
    forall y x : nat,
      (y < 368)%nat -> (x < 1232)%nat ->
      array_entry a y x
      = IZR (pixel (Sample.disparity 1242 375)
                   (1242 - 1232 + Z.of_nat x) (375 - 368 + Z.of_nat y)) / 256.
Proof.
  apply (eval_disparity_is_raw_over_256 (Sample.stereo false) Sample.stereo_world 0
           (Sample.image 1242 375) (Sample.image 1242 375)
           (Sample.disparity 1242 375) "000007.png"%string).
  - reflexivity.
  - apply sample_stereo_load.
  - simpl. lia.
  - simpl. lia.
Defined.

End StereoEntries.

(** ** [is_image_file] *)

Section FileNameFacts.

Local Open Scope string_scope.

Lemma string_eqb_refl (s : string) : String.eqb s s = true.
Proof. apply String.eqb_eq. reflexivity. Qed.

Lemma endswith_iff (s suffix : string) :
  endswith s suffix = true <-> exists p, s = p ++ suffix.
Proof.
  induction s as [| c r IH]; cbn [endswith].
  - destruct (String.eqb "" suffix) eqn:He.
    + apply String.eqb_eq in He. subst suffix. split; [| reflexivity].
      intros _. exists "". reflexivity.
    + split; [intros Hf; discriminate Hf |]. intros [p Hp].
      destruct p as [| x p]; simpl in Hp.
      * subst suffix. rewrite string_eqb_refl in He. discriminate He.
      * discriminate Hp.
  - destruct (String.eqb (String c r) suffix) eqn:He.
    + apply String.eqb_eq in He. split; [| reflexivity].
      intros _. exists "". simpl. exact He.
    + rewrite IH. split.
      * intros [p Hp]. exists (String c p). simpl. now rewrite Hp.
      * intros [p Hp]. destruct p as [| x p]; simpl in Hp.
        -- subst suffix. rewrite string_eqb_refl in He. discriminate He.
        -- injection Hp as Hc Hr. exists p. exact Hr.
Qed.

(** [is_image_file] accepts exactly the names that end with one of the ten
    listed extensions. *)
Theorem is_image_file_iff (filename : string) :
  is_image_file filename = true
  <-> exists (p extension : string),
        In extension IMG_EXTENSIONS /\ filename = p ++ extension.
Proof.
  unfold is_image_file. rewrite existsb_exists. split.
  - intros [ext [Hin Hend]]. apply endswith_iff in Hend. destruct Hend as [p Hp].
    exists p, ext. split; assumption.
  - intros [p [ext [Hin Hp]]]. exists ext. split; [exact Hin |].
    apply endswith_iff. exists p. exact Hp.
Qed.

Lemma length_append (a b : string) :
  String.length (a ++ b) = (String.length a + String.length b)%nat.
Proof. induction a as [| c a IH]; simpl; [reflexivity | now rewrite IH]. Qed.

(** A suffix no longer than the tail [t] is looked for in [t] alone. *)
Lemma endswith_tail (p t suffix : string) :
  (String.length suffix <= String.length t)%nat ->
  endswith (p ++ t) suffix = endswith t suffix.
Proof.
  intros Hlen. induction p as [| c p IH]; [reflexivity |].
  change (String c p ++ t) with (String c (p ++ t)). cbn [endswith].
  destruct (String.eqb (String c (p ++ t)) suffix) eqn:He.
  - apply String.eqb_eq in He. subst suffix. simpl in Hlen.
    rewrite length_append in Hlen. lia.
  - exact IH.
Qed.

(** Only the last five characters of a name matter. *)
Lemma is_image_file_tail (p t : string) :
  String.length t = 5%nat -> is_image_file (p ++ t) = is_image_file t.
Proof.
  intros Ht. unfold is_image_file, IMG_EXTENSIONS. cbn [existsb].
  rewrite !endswith_tail by (rewrite Ht; simpl; lia). reflexivity.
Qed.

Lemma mixed_case_tail_rejected (c : ascii) : is_image_file (String c ".Png") = false.
Proof.
  destruct c as [b0 b1 b2 b3 b4 b5 b6 b7].
  destruct b0, b1, b2, b3, b4, b5, b6, b7; reflexivity.
Qed.

(** The extensions are matched letter for letter: a name ending in [.png]
    or [.PNG] is accepted, a name ending in the mixed-case [.Png] (after at
    least one character) is not. *)
Theorem is_image_file_is_case_sensitive (p : string) (c : ascii) :
  is_image_file (p ++ String c ".png") = true /\
  is_image_file (p ++ String c ".PNG") = true /\
  is_image_file (p ++ String c ".Png") = false.
Proof.
  split; [| split].
  - unfold is_image_file. apply existsb_exists. exists ".png".
    split; [unfold IMG_EXTENSIONS; simpl; tauto |].
    apply endswith_iff. exists (p ++ String c ""). symmetry. apply append_step.
  - unfold is_image_file. apply existsb_exists. exists ".PNG".
    split; [unfold IMG_EXTENSIONS; simpl; tauto |].
    apply endswith_iff. exists (p ++ String c ""). symmetry. apply append_step.
  - rewrite is_image_file_tail by reflexivity. apply mixed_case_tail_rejected.
Qed.

End FileNameFacts.
